(** * edau: looper, speed shifter, sample codec and interpolators

    A shallow embedding of the Go package [edau] (looper.go,
    speed_shifter.go, utils_samples.go, interpolation.go) together with
    the properties of its specification that can be settled on it.

    Conventions of the embedding:
    - Go's [int] and [int64] are [Z]; [int64] arithmetic of the looper
      wraps with [wrap64]. Every [int] of the speed shifter and of its
      window is an index or a length of a slice (or a small multiple of
      the window size), so it never leaves the 64-bit range and is
      computed in [Z] directly.
    - a byte is a [Z] in [0, 256), a slice is the list of its elements;
      index and slice expressions check their bounds and panic like Go.
    - a function that can panic, or whose loop needs fuel, returns in
      the [go] monad.
    - [io.Reader] / [io.Seeker] are type classes whose instances thread
      the state of the stream explicitly. *)

From Stdlib Require Import ZArith List Bool Lia String QArith Qround Qfield SpecFloat.
From stdpp Require Import base list.

Local Open Scope Z_scope.

(** ** Go runtime: results, slices, streams *)

Module Go.

Inductive go (A : Type) : Type :=
| Done (a : A)          (* normal return *)
| Panic (msg : string)  (* panic(msg) or a run-time panic *)
| OutOfFuel.            (* the fuel of a loop ran out *)
Arguments Done {A} a.
Arguments Panic {A} msg.
Arguments OutOfFuel {A}.

Definition bind {A B} (m : go A) (k : A -> go B) : go B :=
  match m with
  | Done a => k a
  | Panic s => Panic s
  | OutOfFuel => OutOfFuel
  end.

Definition byte := Z.

(** Go's [error]: [None] is nil. *)
Inductive error : Type := EOF | Err (code : Z).

Definition wrap64 (z : Z) : Z := (z + 2 ^ 63) mod 2 ^ 64 - 2 ^ 63.
Definition wrap16 (z : Z) : Z := (z + 2 ^ 15) mod 2 ^ 16 - 2 ^ 15.
Definition wrap8u (z : Z) : Z := z mod 2 ^ 8.

Definition len {A} (l : list A) : Z := Z.of_nat (length l).

(** [s[i]] *)
Definition index {A} (s : list A) (i : Z) : go A :=
  if (0 <=? i) && (i <? len s)
  then match s !! Z.to_nat i with
       | Some a => Done a
       | None => Panic "index out of range"
       end
  else Panic "index out of range".

(** [s[i] = v] *)
Definition store {A} (s : list A) (i : Z) (v : A) : go (list A) :=
  if (0 <=? i) && (i <? len s)
  then Done (<[Z.to_nat i := v]> s)
  else Panic "index out of range".

(** [s[lo : hi]] for a slice whose capacity is its length *)
Definition slice {A} (s : list A) (lo hi : Z) : go (list A) :=
  if (0 <=? lo) && (lo <=? hi) && (hi <=? len s)
  then Done (take (Z.to_nat (hi - lo)) (drop (Z.to_nat lo) s))
  else Panic "slice bounds out of range".

(** [copy(dst, src)]: the new contents of [dst] (a memmove of
    [min(len(dst), len(src))] elements). *)
Definition copy {A} (dst src : list A) : list A :=
  take (length dst) src ++ drop (length src) dst.

(** [whence] of [io.Seeker]. *)
Definition SeekStart : Z := 0.
Definition SeekCurrent : Z := 1.
Definition SeekEnd : Z := 2.

(** [io.Reader]: [io_Read s n] is [Read(p)] with [len(p) = n]; it
    returns the bytes written at the start of [p] (their number is the
    [n] of Go), the error and the next state of the stream. *)
Class Reader (S : Type) := io_Read : S -> Z -> list byte * option error * S.

(** [io.Seeker]: [io_Seek s offset whence]. *)
Class Seeker (S : Type) := io_Seek : S -> Z -> Z -> Z * option error * S.

End Go.

Export Go.

Notation "'let!' x ':=' m 'in' k" := (bind m (fun x => k))
  (at level 10, x pattern, m at level 100, k at level 200,
   format "'[v' 'let!'  x  :=  m  'in' '/' k ']'").

(** ** float64

    The arithmetic of the package is written once, over the operations
    of [Float64]. Two instances are given: [binary64], IEEE 754 double
    precision with round-to-nearest-even, which is what Go computes,
    and [Q], the same expressions in exact arithmetic. *)

Module Float.

Class Float64 (F : Type) := {
  f_add : F -> F -> F;
  f_sub : F -> F -> F;
  f_mul : F -> F -> F;
  f_div : F -> F -> F;
  f_lt : F -> F -> bool;       (* x < y *)
  f_le : F -> F -> bool;       (* x <= y *)
  f_of_int : Z -> F;           (* float64(n) *)
  f_to_int : F -> Z;           (* int(x) *)
  f_to_i16 : F -> Z;           (* int16(x) *)
  f_ceil : F -> F              (* math.Ceil(x) *)
}.

(** The constant expression [a/b] of Go ([1.0/3.0], [0.5] = 1/2,
    [1.25] = 5/4, ...): evaluated exactly, then rounded once, which is
    the correctly rounded quotient of the two integers. *)
Definition f_lit {F} `{Float64 F} (a b : Z) : F := f_div (f_of_int a) (f_of_int b).

(** *** IEEE 754 binary64 *)

Definition prec : Z := 53.
Definition emax : Z := 1024.

Definition float64 := spec_float.

(** The integer part of a finite float, truncated toward zero: the
    float is [(+-m * 2^max(e,0)) / 2^max(-e,0)]. *)
Definition SFtrunc (x : float64) : option Z :=
  match x with
  | S754_zero _ => Some 0
  | S754_finite s m e =>
      Some (Z.quot (cond_Zopp s (Z.pos m) * 2 ^ Z.max e 0) (2 ^ Z.max (- e) 0))
  | _ => None
  end.

(** Conversion to an integer type of Go: the truncation when it is
    representable. Otherwise (NaN, infinities, out of range) Go leaves
    the result to the implementation; [dflt] is the value taken here and
    no statement below depends on it. *)
Definition SFto_int (lo hi dflt : Z) (x : float64) : Z :=
  match SFtrunc x with
  | Some z => if (lo <=? z) && (z <=? hi) then z else dflt
  | None => dflt
  end.

Definition SFof_int (z : Z) : float64 := binary_normalize prec emax z 0 false.

(** [math.Ceil]: NaN, infinities, zeros and integers are returned as
    they are; [Ceil(x)] is [-0] for [-1 < x < 0]. *)
Definition SFceil (x : float64) : float64 :=
  match x with
  | S754_finite s m e =>
      if 0 <=? e then x
      else
        let d := 2 ^ (- e) in
        let n := cond_Zopp s (Z.pos m) in
        if n mod d =? 0 then x
        else
          let c := - ((- n) / d) in
          if c =? 0 then S754_zero true else SFof_int c
  | _ => x
  end.

#[export] Instance binary64 : Float64 float64 := {
  f_add := SFadd prec emax;
  f_sub := SFsub prec emax;
  f_mul := SFmul prec emax;
  f_div := SFdiv prec emax;
  f_lt := SFltb;
  f_le := SFleb;
  f_of_int := SFof_int;
  f_to_int := SFto_int (- 2 ^ 63) (2 ^ 63 - 1) (- 2 ^ 63);
  f_to_i16 := SFto_int (- 2 ^ 15) (2 ^ 15 - 1) 0;
  f_ceil := SFceil
}.

(** *** Exact arithmetic

    The same operations on rationals, without rounding; a conversion to
    an integer truncates toward zero. *)

#[export] Instance exact : Float64 Q := {
  f_add := Qplus;
  f_sub := Qminus;
  f_mul := Qmult;
  f_div := Qdiv;
  f_lt := fun x y => negb (Qle_bool y x);
  f_le := Qle_bool;
  f_of_int := inject_Z;
  f_to_int := fun x => Z.quot (Qnum x) (Z.pos (Qden x));
  f_to_i16 := fun x => wrap16 (Z.quot (Qnum x) (Z.pos (Qden x)));
  f_ceil := fun x => inject_Z (Qceiling x)
}.

End Float.

Export Float.

Declare Scope f64_scope.
Delimit Scope f64_scope with F.
Infix "+" := f_add : f64_scope.
Infix "-" := f_sub : f64_scope.
Infix "*" := f_mul : f64_scope.
Infix "/" := f_div : f64_scope.
Infix "<?" := f_lt : f64_scope.
Infix "<=?" := f_le : f64_scope.
Notation "x >=? y" := (f_le y x) (only parsing) : f64_scope.

(** ** utils_samples.go *)

Module Samples.
Section WithFloat.
Context {F : Type} `{Float64 F}.

Definition GetSampleAsI16 (buffer : list byte) : go (Z * Z) :=
  let! b1 := index buffer 1 in
  let! b0 := index buffer 0 in
  let left := Z.lor (wrap16 (Z.shiftl b1 8)) b0 in
  let! b3 := index buffer 3 in
  let! b2 := index buffer 2 in
  let right := Z.lor (wrap16 (Z.shiftl b3 8)) b2 in
  Done (left, right).

Definition StoreL16Sample (buffer : list byte) (left right : Z) : go (list byte) :=
  let! buffer := store buffer 0 (wrap8u left) in               (* left sample low byte *)
  let! buffer := store buffer 1 (wrap8u (Z.shiftr left 8)) in  (* left sample high byte *)
  let! buffer := store buffer 2 (wrap8u right) in              (* right sample low byte *)
  let! buffer := store buffer 3 (wrap8u (Z.shiftr right 8)) in (* right sample high byte *)
  Done buffer.

Definition clipFloatToI16 (value : F) : Z :=
  if (value >=? f_of_int 32767)%F then 32767
  else if (value <=? f_of_int (-32768))%F then -32768
  else f_to_i16 value.

Definition normFloatToI16 (value : F) : Z :=
  if (value >=? f_of_int 0)%F then
    if (value >=? f_of_int 1)%F then 32767
    else f_to_i16 (value * f_of_int 32767)%F
  else (* value < 0 *)
    if (value <=? f_of_int (-1))%F then -32768
    else f_to_i16 (value * f_of_int 32768)%F.

(** Normalize a float64 value from [-32768, 32767] to [-1, 1]. *)
Definition NormalizeF64 (value : F) : F :=
  if (value >=? f_of_int 0)%F then
    if (value >=? f_of_int 32767)%F then f_of_int 1
    else (value / f_of_int 32767)%F
  else (* value < 0 *)
    if (value <=? f_of_int (-32768))%F then f_of_int (-1)
    else (value / f_of_int 32768)%F.

Definition GetSampleAsF64 (buffer : list byte) : go (F * F) :=
  let! (l, r) := GetSampleAsI16 buffer in
  Done (NormalizeF64 (f_of_int l), NormalizeF64 (f_of_int r)).

Definition StoreF64SampleAsL16 (buffer : list byte) (left right : F) : go (list byte) :=
  StoreL16Sample buffer (clipFloatToI16 left) (clipFloatToI16 right).

Definition StoreNormF64SampleAsL16 (buffer : list byte) (left right : F) : go (list byte) :=
  StoreL16Sample buffer (normFloatToI16 left) (normFloatToI16 right).

End WithFloat.
End Samples.

(** ** interpolation.go *)

Module Interp.
Section WithFloat.
Context {F : Type} `{Float64 F}.

(** [InterpolatorFunc]: an interpolator may panic on a short slice. *)
Definition InterpolatorFunc : Type := list F -> F -> go F.

(** The indices that [range samples] goes through. *)
Definition range_of {A} (samples : list A) : list Z :=
  map Z.of_nat (seq 0 (length samples)).

(** The inner loop of [InterpLagrangeN]: the Lagrange basis polynomial
    of sample [j]. *)
Definition lagrange_basis (samples : list F) (targetPosition : F) (j : Z) : F :=
  fold_left
    (fun l m =>
       if j =? m then l
       else (l * ((targetPosition - f_of_int m) / f_of_int (j - m)))%F)
    (range_of samples) (f_of_int 1).

Definition InterpLagrangeN (samples : list F) (targetPosition : F) : F :=
  fold_left
    (fun output js =>
       (output + snd js * lagrange_basis samples targetPosition (fst js))%F)
    (combine (range_of samples) samples) (f_of_int 0).

Definition InterpLagrange4Pt3Ord (samples : list F) (x : F) : go F :=
  let! s1 := index samples 1 in
  let! s2 := index samples 2 in
  let! s0 := index samples 0 in
  let! s3 := index samples 3 in
  let c0 := s1 in
  let c1 := (s2 - f_lit 1 3 * s0 - f_lit 1 2 * s1 - f_lit 1 6 * s3)%F in
  let c2 := (f_lit 1 2 * (s0 + s2) - s1)%F in
  let c3 := (f_lit 1 6 * (s3 - s0) + f_lit 1 2 * (s1 - s2))%F in
  let x1 := (x - f_of_int 1)%F in
  Done (((c3 * x1 + c2) * x1 + c1) * x1 + c0)%F.

Definition InterpLagrange6Pt5Ord (samples : list F) (x : F) : go F :=
  let! s1 := index samples 1 in
  let! s3 := index samples 3 in
  let! s0 := index samples 0 in
  let! s4 := index samples 4 in
  let! s2 := index samples 2 in
  let! s5 := index samples 5 in
  (* precomputed values for some recurrent matrix values *)
  let sam_1_3_pre := (s1 + s3)%F in
  let sam_0_4_pre := (f_lit 1 24 * (s0 + s4))%F in
  (* lagrange polynomial resolution *)
  let c0 := s2 in
  let c1 := (f_lit 1 20 * s0 - f_lit 1 2 * s1 - f_lit 1 3 * s2 + s3
             - f_lit 1 4 * s4 + f_lit 1 30 * s5)%F in
  let c2 := (f_lit 2 3 * sam_1_3_pre - f_lit 5 4 * s2 - sam_0_4_pre)%F in
  let c3 := (f_lit 5 12 * s2 - f_lit 7 12 * s3 + f_lit 7 24 * s4
             - f_lit 1 24 * (s0 + s1 + s5))%F in
  let c4 := (f_lit 1 4 * s2 - f_lit 1 6 * sam_1_3_pre + sam_0_4_pre)%F in
  let c5 := (f_lit 1 120 * (s5 - s0) + f_lit 1 24 * (s1 - s4)
             + f_lit 1 12 * (s3 - s2))%F in
  let x2 := (x - f_of_int 2)%F in
  Done (((((c5 * x2 + c4) * x2 + c3) * x2 + c2) * x2 + c1) * x2 + c0)%F.

Definition InterpHermite4Pt3Ord (samples : list F) (x : F) : go F :=
  let! s1 := index samples 1 in
  let! s2 := index samples 2 in
  let! s0 := index samples 0 in
  let! s3 := index samples 3 in
  let c0 := s1 in
  let c1 := (f_lit 1 2 * (s2 - s0))%F in
  let c2 := (s0 - f_lit 5 2 * s1 + f_of_int 2 * s2 - f_lit 1 2 * s3)%F in
  let c3 := (f_lit 1 2 * (s3 - s0) + f_lit 3 2 * (s1 - s2))%F in
  let x1 := (x - f_of_int 1)%F in
  Done (((c3 * x1 + c2) * x1 + c1) * x1 + c0)%F.

Definition InterpHermite6Pt3Ord (samples : list F) (x : F) : go F :=
  let! s2 := index samples 2 in
  let! s0 := index samples 0 in
  let! s4 := index samples 4 in
  let! s3 := index samples 3 in
  let! s1 := index samples 1 in
  let! s5 := index samples 5 in
  let c0 := s2 in
  let c1 := (f_lit 1 12 * (s0 - s4) + f_lit 2 3 * (s3 - s1))%F in
  let c2 := (f_lit 5 4 * s1 - f_lit 7 3 * s2 + f_lit 5 3 * s3 - f_lit 1 2 * s4
             + f_lit 1 12 * s5 - f_lit 1 6 * s0)%F in
  let c3 := (f_lit 1 12 * (s0 - s5) + f_lit 7 12 * (s4 - s1)
             + f_lit 4 3 * (s2 - s3))%F in
  let x2 := (x - f_of_int 2)%F in
  Done (((c3 * x2 + c2) * x2 + c1) * x2 + c0)%F.

End WithFloat.
Arguments InterpolatorFunc F : clear implicits.


End Interp.

(** ** Interpolation in exact arithmetic: polynomials and their samples *)

Module InterpSpec.





End InterpSpec.

(** ** speed_shifter.go: circularWindow *)

Module Window.
Section WithElem.
Context {A : Type}.

(** [buffer] is the slice of the window; no slice expression of the
    window reaches beyond its length. *)
Record circularWindow := mkWindow {
  winSize : Z;
  buffer : list A;
  startIndex : Z;
  endIndex : Z
}.

Definition Reset (self : circularWindow) : circularWindow :=
  mkWindow (winSize self) (buffer self) 0 0.

Definition Get (self : circularWindow) : go (list A) :=
  slice (buffer self) (startIndex self) (endIndex self).

Definition Push (self : circularWindow) (value : A) : go circularWindow :=
  if endIndex self <? len (buffer self) then
    let! buffer := store (buffer self) (endIndex self) value in
    let startIndex :=
      if winSize self =? endIndex self - startIndex self (* window is full *)
      then startIndex self + 1 else startIndex self in
    Done (mkWindow (winSize self) buffer startIndex (endIndex self + 1))
  else
    if winSize self =? endIndex self - startIndex self then (* window is full *)
      let! src := slice (buffer self) (startIndex self + 1) (endIndex self) in
      let buffer := copy (buffer self) src in
      let! buffer := store buffer (winSize self - 1) value in
      Done (mkWindow (winSize self) buffer 0 (winSize self))
    else
      let! src := slice (buffer self) (startIndex self) (endIndex self) in
      let buffer := copy (buffer self) src in
      let newIndex := endIndex self - startIndex self in
      let! buffer := store buffer newIndex value in
      Done (mkWindow (winSize self) buffer 0 (newIndex + 1)).

(** Pushing the values of a list, first to last. *)
Fixpoint PushAll (self : circularWindow) (values : list A) : go circularWindow :=
  match values with
  | [] => Done self
  | v :: values => let! self := Push self v in PushAll self values
  end.

(** The last [n] elements of a list (all of it when it is shorter). *)
Definition last_n (n : Z) (l : list A) : list A :=
  drop (length l - Z.to_nat n) l.

(** [buf[s : e]] with natural indices. *)
Definition range (buf : list A) (s e : nat) : list A := take (e - s) (drop s buf).

(** What [Push] maintains: the indices stay inside the buffer and the
    view [buffer[startIndex : endIndex]] is the last [winSize] values
    pushed since the last [Reset]. *)
Definition window_inv (n cap : Z) (w : circularWindow) (vs : list A) : Prop :=
  winSize w = n /\ len (buffer w) = cap /\
  0 <= startIndex w <= endIndex w /\ endIndex w <= cap /\
  range (buffer w) (Z.to_nat (startIndex w)) (Z.to_nat (endIndex w)) = last_n n vs.

End WithElem.
Arguments circularWindow A : clear implicits.
End Window.

(** ** speed_shifter.go: SpeedShifter *)

Module Shifter.
Import Samples Interp Window.

(** [source.(io.Seeker)]: the source may or may not be a seeker. *)
Class MaybeSeeker (S : Type) := as_Seeker : option (Seeker S).

(** A byte slice together with its backing array, from the first
    element of the slice up to its capacity: [auxReadBuffer] is resliced
    beyond its length. *)
Record byteSlice := mkSlice {
  arr : list byte;
  slen : Z
}.

Definition nilSlice : byteSlice := mkSlice [] 0.
Definition cap (b : byteSlice) : Z := len (arr b).
Definition view (b : byteSlice) : list byte := take (Z.to_nat (slen b)) (arr b).

(** [b[0 : n]], which may extend [b] up to its capacity. *)
Definition reslice (b : byteSlice) (n : Z) : go byteSlice :=
  if (0 <=? n) && (n <=? cap b) then Done (mkSlice (arr b) n)
  else Panic "slice bounds out of range".

(** [make([]byte, n)] *)
Definition make (n : Z) : go byteSlice :=
  if 0 <=? n then Done (mkSlice (repeat 0 (Z.to_nat n)) n)
  else Panic "makeslice: len out of range".

(** Writing [data] into the array from offset [off] on ([copy] into
    [b[off : ]]). *)
Definition write_at (a : list byte) (off : Z) (data : list byte) : list byte :=
  take (Z.to_nat off) a ++ copy (drop (Z.to_nat off) a) data.

Section WithSource.
Context {F : Type} `{Float64 F} {S : Type} `{Reader S} `{MaybeSeeker S}.

(** The mutex is left out, as for the looper. *)
Record SpeedShifter := mkShifter {
  source : S;
  speed : F;
  windowSize : Z;
  interpolator : InterpolatorFunc F;
  fracPos : F;
  leftoverBytes : Z;   (* from previous reads, not consumed yet *)
  lookaheadBytes : Z;  (* lookahead bytes ready for interpolation *)
  leftWindow : circularWindow F;
  rightWindow : circularWindow F;
  auxReadBuffer : byteSlice
}.

Definition set_source (self : SpeedShifter) (v : S) : SpeedShifter :=
  mkShifter v (speed self) (windowSize self) (interpolator self) (fracPos self)
    (leftoverBytes self) (lookaheadBytes self) (leftWindow self) (rightWindow self)
    (auxReadBuffer self).
Definition set_speed (self : SpeedShifter) (v : F) : SpeedShifter :=
  mkShifter (source self) v (windowSize self) (interpolator self) (fracPos self)
    (leftoverBytes self) (lookaheadBytes self) (leftWindow self) (rightWindow self)
    (auxReadBuffer self).
Definition set_fracPos (self : SpeedShifter) (v : F) : SpeedShifter :=
  mkShifter (source self) (speed self) (windowSize self) (interpolator self) v
    (leftoverBytes self) (lookaheadBytes self) (leftWindow self) (rightWindow self)
    (auxReadBuffer self).
Definition set_leftoverBytes (self : SpeedShifter) (v : Z) : SpeedShifter :=
  mkShifter (source self) (speed self) (windowSize self) (interpolator self)
    (fracPos self) v (lookaheadBytes self) (leftWindow self) (rightWindow self)
    (auxReadBuffer self).
Definition set_lookaheadBytes (self : SpeedShifter) (v : Z) : SpeedShifter :=
  mkShifter (source self) (speed self) (windowSize self) (interpolator self)
    (fracPos self) (leftoverBytes self) v (leftWindow self) (rightWindow self)
    (auxReadBuffer self).
Definition set_windows (self : SpeedShifter) (l r : circularWindow F) : SpeedShifter :=
  mkShifter (source self) (speed self) (windowSize self) (interpolator self)
    (fracPos self) (leftoverBytes self) (lookaheadBytes self) l r
    (auxReadBuffer self).
Definition set_auxReadBuffer (self : SpeedShifter) (v : byteSlice) : SpeedShifter :=
  mkShifter (source self) (speed self) (windowSize self) (interpolator self)
    (fracPos self) (leftoverBytes self) (lookaheadBytes self) (leftWindow self)
    (rightWindow self) v.

(** [left.Push(l); right.Push(r)] *)
Definition pushBoth (l r : circularWindow F) (left right : F)
  : go (circularWindow F * circularWindow F) :=
  let! l := Push l left in
  let! r := Push r right in
  Done (l, r).

(** [for i := 0; i < n; i++ { left.Push(0); right.Push(0) }] *)
Fixpoint pushZeros (n : nat) (l r : circularWindow F)
  : go (circularWindow F * circularWindow F) :=
  match n with
  | O => Done (l, r)
  | Datatypes.S n =>
      let! (l, r) := pushBoth l r (f_of_int 0) (f_of_int 0) in
      pushZeros n l r
  end.

(** Resets the interpolation window and related state. *)
Definition internalReset (self : SpeedShifter) : go SpeedShifter :=
  let self := set_leftoverBytes self 0 in
  let self := set_lookaheadBytes self 0 in
  let l := Reset (leftWindow self) in
  let r := Reset (rightWindow self) in
  let! (l, r) := pushZeros (Z.to_nat (Z.quot (windowSize self) 2 - 1)) l r in
  let buffer := [0; 0; 0; 0] in
  let '(data, _, src) := io_Read (source self) (len buffer) in
  let buffer := copy buffer data in
  let n := len data in
  let self := set_source self src in
  let! (l, r) :=
    (if n =? 4 then
       let! (left_, right_) := GetSampleAsF64 buffer in
       pushBoth l r left_ right_
     else pushBoth l r (f_of_int 0) (f_of_int 0)) in
  Done (set_windows self l r).

Definition NewSpeedShifter (source : S) (speed : F) (windowSize : Z)
    (interpolator : InterpolatorFunc F) : go SpeedShifter :=
  if windowSize <? 2 then Panic "NewSpeedShifter windowSize must be at least 2"
  else if negb (Z.rem windowSize 2 =? 0) then
    Panic "NewSpeedShifter windowSize must be multiple of 2 (may unrestrict in the future)"
  else
    let bufferSize := windowSize * 8 in
    (* the two halves of [make([]float64, bufferSize*numChannels)] *)
    let half := repeat (f_of_int 0) (Z.to_nat bufferSize) in
    internalReset
      (mkShifter source speed windowSize interpolator (f_of_int 0) 0 0
         (mkWindow windowSize half 0 0) (mkWindow windowSize half 0 0) nilSlice).

Definition NewDefaultSpeedShifter (source : S) : go SpeedShifter :=
  NewSpeedShifter source (f_of_int 1) 6 InterpHermite6Pt3Ord.

Definition Speed (self : SpeedShifter) : F := speed self.
Definition SetSpeed (self : SpeedShifter) (speed : F) : SpeedShifter :=
  set_speed self speed.

(** The loop [for self.lookaheadBytes < (self.windowSize << 1)] of
    [singleRead]. It consumes four bytes of [readBuffer] per turn, so
    it is a recursion on [readBuffer]; the first component of the
    result tells whether the loop left by its [return 0, err]. *)
Fixpoint lookaheadLoop (windowSize : Z) (readBuffer : list byte) (lookaheadBytes : Z)
    (l r : circularWindow F) {struct readBuffer}
  : go (bool * list byte * Z * circularWindow F * circularWindow F) :=
  if lookaheadBytes <? Z.shiftl windowSize 1 then
    match readBuffer with
    | _ :: _ :: _ :: _ :: rest =>
        let! (left_, right_) := GetSampleAsI16 readBuffer in
        let! (l, r) := pushBoth l r (f_of_int left_) (f_of_int right_) in
        lookaheadLoop windowSize rest (lookaheadBytes + 4) l r
    | _ => (* len(readBuffer) < 4 *)
        Done (true, readBuffer, lookaheadBytes, l, r)
    end
  else Done (false, readBuffer, lookaheadBytes, l, r).

(** The loop [for self.fracPos >= 1.0 && len(readBuffer) >= 4]. *)
Fixpoint advanceLoop (readBuffer : list byte) (fracPos : F)
    (l r : circularWindow F) {struct readBuffer}
  : go (list byte * F * circularWindow F * circularWindow F) :=
  if (fracPos >=? f_of_int 1)%F then
    match readBuffer with
    | _ :: _ :: _ :: _ :: rest =>
        let! (left_, right_) := GetSampleAsI16 readBuffer in
        let! (l, r) := pushBoth l r (f_of_int left_) (f_of_int right_) in
        advanceLoop rest (fracPos - f_of_int 1)%F l r
    | _ => Done (readBuffer, fracPos, l, r)
    end
  else Done (readBuffer, fracPos, l, r).

(** The state of the loop [for len(readBuffer) >= 4 && bytesServed <
    len(buffer)]. *)
Record processState := mkProcess {
  p_buffer : list byte;
  p_bytesServed : Z;
  p_readBuffer : list byte;
  p_fracPos : F;
  p_left : circularWindow F;
  p_right : circularWindow F
}.

Fixpoint processLoop (fuel : nat) (self : SpeedShifter) (st : processState)
  : go processState :=
  match fuel with
  | O => OutOfFuel
  | Datatypes.S fuel =>
      let '(mkProcess buffer bytesServed readBuffer fracPos l r) := st in
      if (len readBuffer >=? 4) && (bytesServed <? len buffer) then
        let interpPosBase := f_of_int (Z.quot (windowSize self) 2 - 1) in
        (* add sample *)
        let! (buffer, bytesServed, fracPos) :=
          (if (fracPos <? f_of_int 1)%F then
             let! wl := Get l in
             let! left_ := interpolator self wl (interpPosBase + fracPos)%F in
             let! wr := Get r in
             let! right_ := interpolator self wr (interpPosBase + fracPos)%F in
             let! dst := slice buffer bytesServed (len buffer) in
             let! dst := StoreF64SampleAsL16 dst left_ right_ in
             Done (take (Z.to_nat bytesServed) buffer ++ dst,
                   bytesServed + 4, (fracPos + speed self)%F)
           else Done (buffer, bytesServed, fracPos)) in
        (* advance position *)
        let! (readBuffer, fracPos, l, r) := advanceLoop readBuffer fracPos l r in
        processLoop fuel self (mkProcess buffer bytesServed readBuffer fracPos l r)
      else Done st
  end.

(** Like Read, but only reads once from the underlying source. The
    result is the count, the error, the buffer after the call and the
    shifter after the call. *)
Definition singleRead (fuel : nat) (self : SpeedShifter) (buffer : list byte)
  : go (Z * option error * list byte * SpeedShifter) :=
  (* base case *)
  if len buffer =? 0 then Done (0, None, buffer, self)
  else
    (* general case *)
    let requiredLookahead := Z.shiftl (windowSize self) 1 in
    let pendingLookahead := requiredLookahead - lookaheadBytes self in
    let readCompensation := pendingLookahead - leftoverBytes self in
    let samplesRequired :=
      f_ceil ((f_of_int (len buffer) * speed self) / f_of_int 4)%F in
    let bytesToRead :=
      f_to_int (samplesRequired * f_of_int 4 + f_of_int readCompensation)%F in
    if bytesToRead <=? 0 then Panic "unexpected situation"
    else
      (* acquire aux buffer for reading *)
      let minReadBufferSize := leftoverBytes self + bytesToRead in
      let aux := auxReadBuffer self in
      let! readBuffer :=
        (if slen aux <? minReadBufferSize then
           if cap aux >=? minReadBufferSize then reslice aux minReadBufferSize
           else make minReadBufferSize
         else reslice aux minReadBufferSize) in
      (* copy leftoverBytes to the start of the buffer *)
      let! readBuffer :=
        (if leftoverBytes self >? 0 then
           let! tail := slice (view aux) (slen aux - leftoverBytes self) (slen aux) in
           Done (mkSlice (write_at (arr readBuffer) 0 (take (Z.to_nat (slen readBuffer)) tail))
                         (slen readBuffer))
         else Done readBuffer) in
      (* read from underlying source *)
      let! dst := slice (view readBuffer) (leftoverBytes self) (slen readBuffer) in
      let '(data, err, src) := io_Read (source self) (len dst) in
      let readBuffer :=
        mkSlice (write_at (arr readBuffer) (leftoverBytes self) (take (length dst) data))
                (slen readBuffer) in
      let srcBytesRead := len data + leftoverBytes self in
      let! readBuffer := reslice readBuffer srcBytesRead in
      let self := set_source self src in
      (* set read buffer as self.auxReadBuffer for next iterations *)
      let self := set_auxReadBuffer self readBuffer in
      (* ensure lookahead is properly set *)
      let! (early, rest, lookahead, l, r) :=
        lookaheadLoop (windowSize self) (view readBuffer) (lookaheadBytes self)
                      (leftWindow self) (rightWindow self) in
      let self := set_windows (set_lookaheadBytes self lookahead) l r in
      if early : bool then
        Done (0, err, buffer, set_leftoverBytes self (len rest))
      else
        (* process the bytes *)
        let! st := processLoop fuel self
                     (mkProcess buffer 0 rest (fracPos self) l r) in
        let self := set_windows (set_fracPos self (p_fracPos st)) (p_left st) (p_right st) in
        (* update leftover bytes *)
        let self := set_leftoverBytes self (len (p_readBuffer st)) in
        if leftoverBytes self <? 0 then Panic "unexpected situation"
        else Done (p_bytesServed st, err, p_buffer st, self).

(** The loop of [Read]: [buffer] is the slice rounded down to whole
    samples. *)
Fixpoint Read_loop (fuel sfuel : nat) (self : SpeedShifter) (buffer : list byte)
    (bytesServed : Z) : go (Z * option error * list byte * SpeedShifter) :=
  match fuel with
  | O => OutOfFuel
  | Datatypes.S fuel =>
      if bytesServed <? len buffer then
        (* single read from underlying buffer *)
        let! dst := slice buffer bytesServed (len buffer) in
        let! (n, err, dst, self) := singleRead sfuel self dst in
        let buffer := take (Z.to_nat bytesServed) buffer ++ dst in
        let bytesServed := bytesServed + n in
        match err with
        | Some e => Done (bytesServed, Some e, buffer, self)
        | None => Read_loop fuel sfuel self buffer bytesServed
        end
      else Done (bytesServed, None, buffer, self)
  end.

Definition Read (fuel : nat) (self : SpeedShifter) (buffer : list byte)
  : go (Z * option error * list byte * SpeedShifter) :=
  (* do not read incomplete samples *)
  let n := len buffer - Z.land (len buffer) 3 in
  let! head := slice buffer 0 n in
  let! (bytesServed, err, head, self) := Read_loop fuel fuel self head 0 in
  Done (bytesServed, err, head ++ drop (Z.to_nat n) buffer, self).

Definition Seek (self : SpeedShifter) (offset whence : Z)
  : go (Z * option error * SpeedShifter) :=
  if whence =? SeekCurrent then
    if offset =? 0 then Done (0, None, self)
    else Panic "can't use relative seeks on a SpeedShifter (due to lookaheads)"
  else
    (* seek underlying source *)
    match as_Seeker with
    | None => Panic "interface conversion: source is not an io.Seeker"
    | Some seeker =>
        let '(position, err, src) := seeker (source self) offset whence in
        (* Resets interpolation window and related state. *)
        let! self := internalReset (set_source self src) in
        (* return seek results *)
        Done (position, err, self)
    end.

(** What [NewSpeedShifter] sets up and no method changes: both windows
    have the size of the shifter and a buffer that can hold it. *)
Definition shifter_ok (self : SpeedShifter) : Prop :=
  2 <= windowSize self /\
  winSize (leftWindow self) = windowSize self /\
  winSize (rightWindow self) = windowSize self /\
  windowSize self <= len (buffer (leftWindow self)) /\
  windowSize self <= len (buffer (rightWindow self)).

(** The sample that [internalReset] reads from the source after the
    zero padding. *)
Definition bootstrapSample (data : list byte) : go (F * F) :=
  if len data =? 4 then GetSampleAsF64 (copy [0; 0; 0; 0] data)
  else Done (f_of_int 0, f_of_int 0).

End WithSource.
Arguments SpeedShifter F S : clear implicits.
End Shifter.

(** ** The speed shifter: what its methods maintain *)

Module ShifterSpec.
Import Window Shifter.
Section WithSource.
Context {F : Type} `{Float64 F} {S : Type} `{Reader S} `{MaybeSeeker S}.

(** Both windows show the last [ws] of the values pushed into them,
    and at least [k/4] values have been pushed into each. *)
Definition windows_inv (ws capl capr k : Z) (l r : circularWindow F) : Prop :=
  exists vl vr,
    window_inv ws capl l vl /\ window_inv ws capr r vr /\
    k <= 4 * len vl /\ k <= 4 * len vr.

(** The state of a shifter between two calls: an even window size, two
    windows of that size holding half a window of samples plus the
    lookahead, and leftover bytes that are really at the end of the
    aux read buffer. *)
Definition shifter_inv (self : SpeedShifter F S) : Prop :=
  2 <= windowSize self /\ Z.rem (windowSize self) 2 = 0 /\
  windowSize self <= len (buffer (leftWindow self)) /\
  windowSize self <= len (buffer (rightWindow self)) /\
  windows_inv (windowSize self)
    (len (buffer (leftWindow self))) (len (buffer (rightWindow self)))
    (2 * windowSize self + lookaheadBytes self)
    (leftWindow self) (rightWindow self) /\
  0 <= leftoverBytes self <= slen (auxReadBuffer self) /\
  slen (auxReadBuffer self) <= cap (auxReadBuffer self).

(** The interpolator returns on every window of [windowSize] samples. *)
Definition interp_total (self : SpeedShifter F S) : Prop :=
  forall samples x,
    len samples = windowSize self -> exists y, interpolator self samples x = Done y.




End WithSource.
End ShifterSpec.

(** ** looper.go *)

Module Looper.
Section WithStream.
Context {S : Type} `{Reader S} `{Seeker S}.

(** The mutex is left out: the embedding is sequential, a method runs
    from its Lock to its Unlock without interleaving. *)
Record Looper := mkLooper {
  stream : S;
  position : Z;
  loopStart : Z;
  activeLoopEnd : Z;
  loopEnd : Z
}.

Definition set_stream (self : Looper) (v : S) : Looper :=
  mkLooper v (position self) (loopStart self) (activeLoopEnd self) (loopEnd self).
Definition set_position (self : Looper) (v : Z) : Looper :=
  mkLooper (stream self) v (loopStart self) (activeLoopEnd self) (loopEnd self).
Definition set_loopStart (self : Looper) (v : Z) : Looper :=
  mkLooper (stream self) (position self) v (activeLoopEnd self) (loopEnd self).
Definition set_activeLoopEnd (self : Looper) (v : Z) : Looper :=
  mkLooper (stream self) (position self) (loopStart self) v (loopEnd self).
Definition set_loopEnd (self : Looper) (v : Z) : Looper :=
  mkLooper (stream self) (position self) (loopStart self) (activeLoopEnd self) v.

Definition assertLoopValuesValidity (loopStart loopEnd : Z) : go unit :=
  if negb (Z.land loopStart 3 =? 0) then Panic "loopStart must be multiple of 4"
  else if negb (Z.land loopEnd 3 =? 0) then Panic "loopEnd must be multiple of 4"
  else if loopStart >=? loopEnd then Panic "loopStart must be strictly smaller than loopEnd"
  else if loopStart <? 0 then Panic "loopStart must be >= 0"
  else Done tt.

Definition NewLooper (stream : S) (loopStart loopEnd : Z) : go Looper :=
  let! _ := assertLoopValuesValidity loopStart loopEnd in
  Done (mkLooper stream 0 loopStart loopEnd loopEnd).

Definition AdjustLoop (self : Looper) (loopStart loopEnd : Z) : go Looper :=
  let! _ := assertLoopValuesValidity loopStart loopEnd in
  let self := set_loopStart self loopStart in
  let self := set_loopEnd self loopEnd in
  Done (if loopEnd >=? position self
        then set_activeLoopEnd self loopEnd
        else self).

(** [readAll]: the loop retries partial reads. [want] is [len(buffer)],
    [acc] the bytes written into the buffer so far; [bytesRead] is
    [len acc]. The deferred update of [position] is in [readAll]. *)
Fixpoint readAll_loop (fuel : nat) (s : S) (want : Z) (acc : list byte)
  : go (list byte * option error * S) :=
  match fuel with
  | O => OutOfFuel
  | Datatypes.S fuel =>
      let '(data, err, s) := io_Read s want in
      let n := len data in
      let acc := acc ++ data in
      if (n =? want) || bool_decide (err <> None) then Done (acc, err, s)
      else
        (* buffer = buffer[n : ] *)
        if n <=? want then readAll_loop fuel s (want - n) acc
        else Panic "slice bounds out of range"
  end.

Definition readAll (fuel : nat) (self : Looper) (want : Z)
  : go (list byte * option error * Looper) :=
  let! (data, err, s) := readAll_loop fuel (stream self) want [] in
  let self := set_stream self s in
  Done (data, err, set_position self (wrap64 (position self + len data))).

(** [Read]: [remaining] is the length of the local [buffer], [out] the
    bytes written so far at the start of the caller's buffer (every
    write is contiguous with the previous one), [bytesRead = len out]. *)
Fixpoint Read_loop (fuel : nat) (rfuel : nat) (self : Looper)
    (remaining : Z) (out : list byte)
  : go (list byte * option error * Looper) :=
  match fuel with
  | O => OutOfFuel
  | Datatypes.S fuel =>
      if remaining >? 0 then
        let untilNextLoop := wrap64 (activeLoopEnd self - position self) in
        let untilNextLoop := if untilNextLoop <? 0 then 0 else untilNextLoop in
        (* simple case: not reaching next loop point yet *)
        if remaining <=? untilNextLoop then
          let! (data, err, self) := readAll rfuel self remaining in
          Done (out ++ data, err, self)
        else
          (* complex case: one or more loop points reached *)
          let! (out, err, self) :=
            (if untilNextLoop >? 0 then
               let! (data, err, self) := readAll rfuel self untilNextLoop in
               Done (out ++ data, err, self)
             else Done (out, None, self)) in
          match err with
          | Some e => Done (out, Some e, self)
          | None =>
              let self := set_activeLoopEnd self (loopEnd self) in
              let '(pos, err, s) := io_Seek (stream self) (loopStart self) SeekStart in
              let self := set_position (set_stream self s) pos in
              match err with
              | Some e => Done (out, Some e, self)
              | None => Read_loop fuel rfuel self (remaining - untilNextLoop) out
              end
          end
      else Done (out, None, self)
  end.

(** [Read(buffer)]: the returned count, the error, the buffer after
    the call and the looper after the call. *)
Definition Read (fuel : nat) (self : Looper) (buffer : list byte)
  : go (Z * option error * list byte * Looper) :=
  let! (out, err, self) := Read_loop fuel fuel self (len buffer) [] in
  Done (len out, err, copy buffer out, self).

Definition Seek (self : Looper) (offset whence : Z) : Z * option error * Looper :=
  let '(n, err, s) := io_Seek (stream self) offset whence in
  let self := set_position (set_stream self s) n in
  let self := if position self <=? loopEnd self
              then set_activeLoopEnd self (loopEnd self) else self in
  (n, err, self).

Definition GetPosition (self : Looper) : Z := position self.
Definition GetLoopStart (self : Looper) : Z := loopStart self.
Definition GetLoopEnd (self : Looper) : Z := loopEnd self.
Definition GetLoopPoints (self : Looper) : Z * Z := (loopStart self, loopEnd self).

End WithStream.
Arguments Looper S : clear implicits.

(** The dynamic type of the stream, as far as the type switch of
    [Length] tells streams apart. *)
Inductive streamKind (S : Type) : Type :=
| BytesReader (Len : S -> Z)         (* a [*bytes.Reader], with its [Len()] *)
| StdAudioStream (Length : S -> Z)   (* a stream with a [Length() int64] method *)
| OtherStream.
Arguments BytesReader {S} Len.
Arguments StdAudioStream {S} Length.
Arguments OtherStream {S}.

Class Typed (S : Type) := stream_kind : streamKind S.

(** Returns the underlying stream's length. *)
Definition Length {S : Type} `{Typed S} (self : Looper S) : go Z :=
  match stream_kind with
  | BytesReader Len => Done (Len (stream self))
  | StdAudioStream Length => Done (Length (stream self))
  | OtherStream =>
      Panic "Looper underlying stream doesn't implement Length() int64 and is not a *bytes.Reader either"
  end.

End Looper.

(** ** An in-memory stream

    Go's [bytes.Reader] ([Read] and [Seek] of the standard library),
    the stream [Looper.Length] knows about, with one generalisation: a
    [Read] delivers at most [ms_chunk] bytes, so that partial reads can
    be exercised. [bytes.Reader] itself is [ms_chunk >= len ms_data]. *)

Module MemStream.

Record memStream := mkMem {
  ms_data : list byte;
  ms_pos : Z;
  ms_chunk : Z
}.

Definition Read (r : memStream) (n : Z) : list byte * option error * memStream :=
  if ms_pos r >=? len (ms_data r) then ([], Some EOF, r)
  else
    let n := Z.min n (ms_chunk r) in
    let data := take (Z.to_nat n) (drop (Z.to_nat (ms_pos r)) (ms_data r)) in
    (data, None, mkMem (ms_data r) (ms_pos r + len data) (ms_chunk r)).

Definition Seek (r : memStream) (offset whence : Z) : Z * option error * memStream :=
  if (whence =? SeekStart) || (whence =? SeekCurrent) || (whence =? SeekEnd) then
    let abs :=
      if whence =? SeekStart then offset
      else if whence =? SeekCurrent then wrap64 (ms_pos r + offset)
      else wrap64 (len (ms_data r) + offset) in
    if abs <? 0 then (0, Some (Err 2), r)   (* negative position *)
    else (abs, None, mkMem (ms_data r) abs (ms_chunk r))
  else (0, Some (Err 1), r).                (* invalid whence *)

(** [Len] of [bytes.Reader]: the number of bytes of the unread portion
    of the slice. *)
Definition Len (r : memStream) : Z :=
  if ms_pos r >=? len (ms_data r) then 0 else len (ms_data r) - ms_pos r.

#[export] Instance memStream_Reader : Reader memStream := Read.
#[export] Instance memStream_Typed : Looper.Typed memStream := Looper.BytesReader Len.
#[export] Instance memStream_Seeker : Seeker memStream := Seek.
#[export] Instance memStream_MaybeSeeker : Shifter.MaybeSeeker memStream := Some Seek.

End MemStream.

Import (hints) MemStream.

(** ** Reading round a loop: what the bytes of a read should be *)

Module LoopSpec.
Import MemStream.

(** [data[lo : lo+n]] *)
Definition bytes_at (data : list byte) (lo n : Z) : list byte :=
  take (Z.to_nat n) (drop (Z.to_nat lo) data).

(** The in-memory stream over [data] standing at [pos]. *)
Definition mem (data : list byte) (chunk pos : Z) : memStream :=
  mkMem data pos chunk.

(** Where the [i]-th byte of a read comes from, when the read starts
    at position [p] of a loop [ls, le): straight on up to [le], then
    round the loop. *)
Definition loop_pos (ls le p i : Z) : Z :=
  if p + i <? le then p + i else ls + (p + i - le) mod (le - ls).

(** The position after [n] bytes: the loop end itself is a position
    (the wrap happens at the start of the next read). *)
Definition loop_end (ls le p n : Z) : Z :=
  if p + n <=? le then p + n else ls + 1 + (p + n - le - 1) mod (le - ls).

(** The looper with loop [ls, le) standing at [p], in step with its
    stream. *)
Definition at_pos (data : list byte) (chunk ls le p : Z) : Looper.Looper memStream :=
  Looper.mkLooper (mem data chunk p) p ls le le.

End LoopSpec.

(** ** A concrete shifter

    Twenty samples (100, -100), (200, -200), ... as an in-memory
    stream, played at half speed through a window of two samples. *)

Module Example.
Import MemStream LoopSpec.

Definition sample_bytes (l r : Z) : list byte :=
  [wrap8u l; wrap8u (Z.shiftr l 8); wrap8u r; wrap8u (Z.shiftr r 8)].

Definition ramp : list byte :=
  flat_map (fun i => sample_bytes (100 * i) (- 100 * i)) (map Z.of_nat (seq 1 20)).

Definition halfSpeed : go (Shifter.SpeedShifter float64 memStream) :=
  Shifter.NewSpeedShifter (mem ramp 1000 0) (f_lit 1 2) 2
    (fun samples x => Done (Interp.InterpLagrangeN samples x)).

(** [halfSpeed] after one [Read] into a buffer of four bytes. *)
Definition halfSpeed_played : go (Shifter.SpeedShifter float64 memStream) :=
  let! self := halfSpeed in
  let! (_, _, _, self) := Shifter.Read 10 self [0; 0; 0; 0] in
  Done self.

(** A shifter at speed 3/2 over the same stream, five bytes at a time,
    with the 6-point Hermite interpolator. *)
Definition fastShifter : go (Shifter.SpeedShifter float64 memStream) :=
  Shifter.NewSpeedShifter (mem ramp 5 0) (f_lit 3 2) 6 Interp.InterpHermite6Pt3Ord.

End Example.

(** * Properties *)

(** ** Slices *)

Section GoFacts.
Context {A : Type}.
Implicit Types (s : list A) (i : Z).

Lemma len_nonneg s : 0 <= len s.
Proof. unfold len. lia. Qed.

Lemma index_Done s i x :
  0 <= i -> s !! Z.to_nat i = Some x -> index s i = Done x.
Proof.
  intros Hi Hx. unfold index, len.
  pose proof (lookup_lt_Some _ _ _ Hx).
  destruct (Z.leb_spec 0 i); [|lia].
  destruct (Z.ltb_spec i (Z.of_nat (length s))); [|lia].
  cbn. rewrite Hx. reflexivity.
Qed.

Lemma store_Done s i v :
  0 <= i < len s -> store s i v = Done (<[Z.to_nat i := v]> s).
Proof.
  intros Hi. unfold store.
  destruct (Z.leb_spec 0 i); [|lia].
  destruct (Z.ltb_spec i (len s)); [|lia]. reflexivity.
Qed.

Lemma slice_Done s lo hi :
  0 <= lo <= hi -> hi <= len s ->
  slice s lo hi = Done (take (Z.to_nat (hi - lo)) (drop (Z.to_nat lo) s)).
Proof.
  intros H1 H2. unfold slice.
  destruct (Z.leb_spec 0 lo); [|lia].
  destruct (Z.leb_spec lo hi); [|lia].
  destruct (Z.leb_spec hi (len s)); [|lia]. reflexivity.
Qed.

Lemma len_insert s (n : nat) v : len (<[n := v]> s) = len s.
Proof. unfold len. rewrite length_insert. reflexivity. Qed.

Lemma len_app s t : len (s ++ t) = len s + len t.
Proof. unfold len. rewrite length_app. lia. Qed.

End GoFacts.

(** ** The sample codec *)

Section SampleFacts.
Import Samples.

Lemma land_high_low h lo : 0 <= lo < 2 ^ 8 -> Z.land (h * 2 ^ 8) lo = 0.
Proof.
  intros Hlo. apply Z.bits_inj'. intros i Hi.
  rewrite Z.land_spec, Z.bits_0.
  destruct (Z.lt_ge_cases i 8).
  - rewrite Z.mul_pow2_bits_low by lia. reflexivity.
  - rewrite <- (Z.mod_small lo (2 ^ 8)) by lia.
    rewrite Z.mod_pow2_bits_high by lia. apply andb_false_r.
Qed.

(** One channel: the two bytes of [StoreL16Sample] put back together
    by [GetSampleAsI16]. *)
Lemma channel_roundtrip v :
  - 2 ^ 15 <= v < 2 ^ 15 ->
  Z.lor (wrap16 (Z.shiftl (wrap8u (Z.shiftr v 8)) 8)) (wrap8u v) = v.
Proof.
  intros Hv. unfold wrap8u.
  rewrite Z.shiftr_div_pow2, Z.shiftl_mul_pow2 by lia.
  assert (wrap16 ((v / 2 ^ 8) mod 2 ^ 8 * 2 ^ 8) = v / 2 ^ 8 * 2 ^ 8) as ->.
  { unfold wrap16.
    assert (- 2 ^ 7 <= v / 2 ^ 8 < 2 ^ 7) as Hh
      by (split; [apply Z.div_le_lower_bound | apply Z.div_lt_upper_bound]; lia).
    destruct (Z.lt_ge_cases (v / 2 ^ 8) 0).
    - rewrite <- (Z.mod_unique (v / 2 ^ 8) (2 ^ 8) (-1) (v / 2 ^ 8 + 2 ^ 8)) by lia.
      rewrite <- (Z.mod_unique _ (2 ^ 16) 1 (v / 2 ^ 8 * 2 ^ 8 + 2 ^ 15)) by lia.
      lia.
    - rewrite (Z.mod_small (v / 2 ^ 8)) by lia.
      rewrite Z.mod_small by lia. lia. }
  pose proof (Z.mod_pos_bound v (2 ^ 8) ltac:(lia)) as Hlo.
  pose proof (Z.add_lor_land (v / 2 ^ 8 * 2 ^ 8) (v mod 2 ^ 8)) as E.
  rewrite land_high_low in E by lia.
  pose proof (Z.div_mod v (2 ^ 8) ltac:(lia)). lia.
Qed.

(** C7. For every pair of int16 values [(l, r)] and every buffer of at
    least 4 bytes, [StoreL16Sample] succeeds and [GetSampleAsI16] on
    the buffer it wrote returns exactly [(l, r)]; the bytes after the
    sample are untouched. *)
Theorem Store_Get_roundtrip (buffer : list byte) (l r : Z) :
  4 <= len buffer ->
  - 2 ^ 15 <= l < 2 ^ 15 -> - 2 ^ 15 <= r < 2 ^ 15 ->
  exists buffer',
    StoreL16Sample buffer l r = Done buffer' /\
    GetSampleAsI16 buffer' = Done (l, r) /\
    len buffer' = len buffer /\
    drop 4 buffer' = drop 4 buffer.
Proof.
  intros Hlen Hl Hr. unfold StoreL16Sample.
  rewrite store_Done by lia. cbn [bind].
  rewrite store_Done by (rewrite len_insert; lia). cbn [bind].
  rewrite store_Done by (rewrite !len_insert; lia). cbn [bind].
  rewrite store_Done by (rewrite !len_insert; lia). cbn [bind].
  eexists. split; [reflexivity|].
  destruct buffer as [|b0 [|b1 [|b2 [|b3 rest]]]];
    try (unfold len in Hlen; cbn in Hlen; lia).
  change (Z.to_nat 0) with 0%nat. change (Z.to_nat 1) with 1%nat.
  change (Z.to_nat 2) with 2%nat. change (Z.to_nat 3) with 3%nat.
  cbn [insert list_insert].
  split; [|split; reflexivity].
  unfold GetSampleAsI16.
  rewrite (index_Done _ 1 (wrap8u (Z.shiftr l 8))) by (reflexivity || lia).
  rewrite (index_Done _ 0 (wrap8u l)) by (reflexivity || lia).
  rewrite (index_Done _ 3 (wrap8u (Z.shiftr r 8))) by (reflexivity || lia).
  rewrite (index_Done _ 2 (wrap8u r)) by (reflexivity || lia).
  cbn [bind]. rewrite !channel_roundtrip by assumption. reflexivity.
Qed.

End SampleFacts.

Lemma Store_Get_roundtrip_witness :
  exists buffer',
    Samples.StoreL16Sample [9; 9; 9; 9; 9] (-2) 258 = Done buffer' /\
    Samples.GetSampleAsI16 buffer' = Done (-2, 258) /\
    len buffer' = len [9; 9; 9; 9; 9] /\
    drop 4 buffer' = drop 4 [9; 9; 9; 9; 9].
Proof.
  apply (Store_Get_roundtrip [9; 9; 9; 9; 9] (-2) 258);
    [unfold len; simpl; lia | lia | lia].
Defined.

Section LooperFacts.
Context {S : Type} `{Reader S} `{Seeker S}.
Import Looper.

Lemma land3_mod4 z : Z.land z 3 = z mod 4.
Proof. exact (Z.land_ones z 2 ltac:(lia)). Qed.

Lemma assertLoopValuesValidity_ok (s e : Z) :
  s mod 4 = 0 -> e mod 4 = 0 -> 0 <= s < e ->
  assertLoopValuesValidity s e = Done tt.
Proof.
  intros Hs He Hr. unfold assertLoopValuesValidity.
  rewrite !land3_mod4, Hs, He. simpl.
  destruct (Z.geb_spec s e); [lia|].
  destruct (Z.ltb_spec s 0); [lia|]. reflexivity.
Qed.


End LooperFacts.

(** ** The looper over an in-memory stream *)

Section LooperMem.
Import Looper MemStream LoopSpec.

Lemma len_bytes_at data lo n :
  0 <= lo -> 0 <= n -> lo + n <= len data -> len (bytes_at data lo n) = n.
Proof.
  unfold bytes_at, len. intros. rewrite length_take, length_drop. lia.
Qed.

Lemma bytes_at_app data lo n m :
  0 <= lo -> 0 <= n -> 0 <= m ->
  bytes_at data lo n ++ bytes_at data (lo + n) m = bytes_at data lo (n + m).
Proof.
  unfold bytes_at. intros.
  replace (Z.to_nat (lo + n)) with (Z.to_nat lo + Z.to_nat n)%nat by lia.
  replace (Z.to_nat (n + m)) with (Z.to_nat n + Z.to_nat m)%nat by lia.
  rewrite <- drop_drop. apply take_take_drop.
Qed.

Lemma bytes_at_lookup data lo n i :
  0 <= lo -> 0 <= i < n ->
  bytes_at data lo n !! Z.to_nat i = data !! Z.to_nat (lo + i).
Proof.
  unfold bytes_at. intros.
  rewrite lookup_take_lt by lia. rewrite lookup_drop. f_equal. lia.
Qed.

Lemma mem_Read data chunk pos n :
  1 <= chunk -> 0 <= pos -> 0 < n -> pos + n <= len data ->
  io_Read (mem data chunk pos) n =
    (bytes_at data pos (Z.min n chunk), None, mem data chunk (pos + Z.min n chunk)).
Proof.
  intros Hc Hp Hn Hl. unfold io_Read, memStream_Reader, Read, mem. cbn.
  destruct (Z.geb_spec pos (len data)); [lia|].
  fold (bytes_at data pos (Z.min n chunk)).
  rewrite len_bytes_at by lia. reflexivity.
Qed.

Lemma readAll_loop_mem data chunk (fuel : nat) : forall pos want acc,
  1 <= chunk -> 0 <= pos -> 0 < want -> pos + want <= len data ->
  want <= Z.of_nat fuel ->
  readAll_loop fuel (mem data chunk pos) want acc =
    Done (acc ++ bytes_at data pos want, None, mem data chunk (pos + want)).
Proof.
  induction fuel as [|fuel IH]; intros pos want acc Hc Hp Hw Hl Hf; [lia|].
  cbn [readAll_loop]. rewrite mem_Read by lia.
  rewrite len_bytes_at by lia.
  destruct (Z.eqb_spec (Z.min want chunk) want) as [E|E]; cbn [orb].
  - rewrite E. reflexivity.
  - rewrite bool_decide_eq_false_2 by (intros X; apply X; reflexivity).
    destruct (Z.leb_spec (Z.min want chunk) want); [|lia].
    rewrite IH by lia. rewrite <- app_assoc, bytes_at_app by lia.
    replace (Z.min want chunk + (want - Z.min want chunk)) with want by lia.
    replace (pos + Z.min want chunk + (want - Z.min want chunk))
      with (pos + want) by lia.
    reflexivity.
Qed.

Lemma readAll_mem data chunk fuel (self : Looper memStream) want :
  stream self = mem data chunk (position self) ->
  1 <= chunk -> 0 <= position self -> 0 < want ->
  position self + want <= len data -> len data < 2 ^ 63 ->
  want <= Z.of_nat fuel ->
  readAll fuel self want =
    Done (bytes_at data (position self) want, None,
          mkLooper (mem data chunk (position self + want)) (position self + want)
                   (loopStart self) (activeLoopEnd self) (loopEnd self)).
Proof.
  intros Hs Hc Hp Hw Hl Hd Hf. unfold readAll. rewrite Hs.
  rewrite readAll_loop_mem by lia. cbn [bind app].
  rewrite len_bytes_at by lia.
  unfold set_position, set_stream; cbn.
  replace (wrap64 (position self + want)) with (position self + want); [reflexivity|].
  unfold wrap64. rewrite Z.mod_small; lia.
Qed.

Lemma mod_sub_period k d : 0 < d -> (k - d) mod d = k mod d.
Proof.
  intros. replace (k - d) with (k + (-1) * d) by lia. apply Z_mod_plus_full.
Qed.

Lemma loop_pos_wrap ls le p i :
  0 <= ls < le -> le <= p + i ->
  loop_pos ls le ls (i - (le - p)) = loop_pos ls le p i.
Proof.
  intros Hl Hi. unfold loop_pos.
  destruct (Z.ltb_spec (p + i) le); [lia|].
  destruct (Z.ltb_spec (ls + (i - (le - p))) le).
  - rewrite Z.mod_small by lia. lia.
  - replace (ls + (i - (le - p)) - le) with (p + i - le - (le - ls)) by lia.
    rewrite mod_sub_period by lia. reflexivity.
Qed.

Lemma loop_end_wrap ls le p r :
  0 <= ls < le -> le < p + r ->
  loop_end ls le ls (r - (le - p)) = loop_end ls le p r.
Proof.
  intros Hl Hr. unfold loop_end.
  destruct (Z.leb_spec (p + r) le); [lia|].
  destruct (Z.leb_spec (ls + (r - (le - p))) le).
  - rewrite Z.mod_small by lia. lia.
  - replace (ls + (r - (le - p)) - le - 1) with (p + r - le - 1 - (le - ls)) by lia.
    rewrite mod_sub_period by lia. reflexivity.
Qed.

Lemma mem_Seek_start data chunk pos ls :
  0 <= ls -> io_Seek (mem data chunk pos) ls SeekStart = (ls, None, mem data chunk ls).
Proof.
  intros. unfold io_Seek, memStream_Seeker, Seek, mem. cbn.
  destruct (Z.ltb_spec ls 0); [lia|]. reflexivity.
Qed.

Section Loop.
Variables (data : list byte) (chunk ls le : Z).
Hypothesis Hchunk : 1 <= chunk.
Hypothesis Hloop : 0 <= ls < le.
Hypothesis Hle : le <= len data.
Hypothesis Hlen : len data < 2 ^ 63.

Local Abbreviation at_pos := (LoopSpec.at_pos data chunk ls le).

Lemma Read_loop_mem (fuel : nat) : forall (rfuel : nat) p r out,
  0 <= p <= le -> 0 <= r -> r <= Z.of_nat rfuel ->
  r + (if p =? le then 2 else 1) <= Z.of_nat fuel ->
  exists seg,
    Read_loop fuel rfuel (at_pos p) r out =
      Done (out ++ seg, None, at_pos (loop_end ls le p r)) /\
    len seg = r /\
    forall i, 0 <= i < r ->
      seg !! Z.to_nat i = data !! Z.to_nat (loop_pos ls le p i).
Proof.
  induction fuel as [|fuel IH]; intros rfuel p r out Hp Hr Hrf Hf.
  { destruct (p =? le); lia. }
  cbn [Read_loop].
  destruct (Z.gtb_spec r 0) as [Hr0|Hr0].
  2:{ exists []. assert (r = 0) as -> by lia. rewrite app_nil_r.
      split; [|split; [reflexivity|intros; lia]].
      unfold loop_end. destruct (Z.leb_spec (p + 0) le); [|lia].
      rewrite Z.add_0_r. reflexivity. }
  change (activeLoopEnd (at_pos p)) with le.
  change (position (at_pos p)) with p.
  replace (wrap64 (le - p)) with (le - p)
    by (unfold wrap64; rewrite Z.mod_small; lia).
  destruct (Z.ltb_spec (le - p) 0); [lia|].
  destruct (Z.leb_spec r (le - p)) as [Hfit|Hcross].
  - (* the request fits before the loop end *)
    rewrite (readAll_mem data chunk) by (cbn; (reflexivity || lia)).
    cbn [bind position loopStart loopEnd activeLoopEnd at_pos].
    exists (bytes_at data p r). split; [|split].
    + unfold loop_end. destruct (Z.leb_spec (p + r) le); [|lia]. reflexivity.
    + apply len_bytes_at; lia.
    + intros i Hi. rewrite bytes_at_lookup by lia.
      unfold loop_pos. destruct (Z.ltb_spec (p + i) le); [|lia]. reflexivity.
  - (* the request crosses the loop end *)
    destruct (Z.gtb_spec (le - p) 0) as [Hpos|Hzero].
    + rewrite (readAll_mem data chunk) by (cbn; (reflexivity || lia)).
      cbn [bind position loopStart loopEnd activeLoopEnd stream at_pos
           set_activeLoopEnd set_position set_stream].
      replace (p + (le - p)) with le by lia.
      rewrite mem_Seek_start by lia.
      unfold set_activeLoopEnd, set_position, set_stream.
      cbn [position loopStart loopEnd activeLoopEnd stream].
      destruct (IH rfuel ls (r - (le - p)) (out ++ bytes_at data p (le - p)))
        as (seg & E & Hlen' & Hseg); try lia.
      { destruct (Z.eqb_spec ls le), (Z.eqb_spec p le); lia. }
      unfold at_pos in E. rewrite E.
      exists (bytes_at data p (le - p) ++ seg). split; [|split].
      * rewrite app_assoc, loop_end_wrap by lia. reflexivity.
      * pose proof (len_bytes_at data p (le - p)) as L.
        unfold len in *. rewrite length_app. lia.
      * intros i Hi.
        assert (length (bytes_at data p (le - p)) = Z.to_nat (le - p)) as L
          by (pose proof (len_bytes_at data p (le - p)); unfold len in *; lia).
        destruct (Z.ltb_spec i (le - p)).
        -- rewrite lookup_app_l by lia.
           rewrite bytes_at_lookup by lia.
           unfold loop_pos. destruct (Z.ltb_spec (p + i) le); [|lia]. reflexivity.
        -- rewrite lookup_app_r by lia. rewrite L.
           replace (Z.to_nat i - Z.to_nat (le - p))%nat
             with (Z.to_nat (i - (le - p))) by lia.
           rewrite Hseg by lia. rewrite loop_pos_wrap by lia. reflexivity.
    + assert (p = le) as -> by lia.
      cbn [bind position loopStart loopEnd activeLoopEnd stream at_pos
           set_activeLoopEnd set_position set_stream].
      rewrite mem_Seek_start by lia.
      unfold set_activeLoopEnd, set_position, set_stream.
      cbn [position loopStart loopEnd activeLoopEnd stream at_pos].
      replace (r - (le - le)) with r by lia.
      rewrite Z.eqb_refl in Hf.
      destruct (IH rfuel ls r out) as (seg & E & Hlen' & Hseg); try lia.
      { destruct (Z.eqb_spec ls le); lia. }
      unfold at_pos in E. rewrite E.
      exists seg. split; [|split; [assumption|]].
      * rewrite <- (loop_end_wrap ls le le r) by lia.
        replace (r - (le - le)) with r by lia. reflexivity.
      * intros i Hi. rewrite Hseg by lia.
        rewrite <- (loop_pos_wrap ls le le i) by lia.
        replace (i - (le - le)) with i by lia. reflexivity.
Qed.

(** One [Read] over a loop: it returns the whole request without an
    error, however many times the loop end is crossed; byte [i] of the
    buffer is the byte of the stream at [loop_pos ls le p i]. *)
Lemma Read_mem (fuel : nat) p (buffer : list byte) :
  0 <= p <= le -> len buffer + 2 <= Z.of_nat fuel ->
  exists out,
    Looper.Read fuel (at_pos p) buffer =
      Done (len buffer, None, out, at_pos (loop_end ls le p (len buffer))) /\
    len out = len buffer /\
    forall i, 0 <= i < len buffer ->
      out !! Z.to_nat i = data !! Z.to_nat (loop_pos ls le p i).
Proof.
  intros Hp Hf. unfold Looper.Read.
  destruct (Read_loop_mem fuel fuel p (len buffer) []) as (seg & E & Hl & Hseg);
    try (unfold len in *; lia).
  { destruct (p =? le); lia. }
  rewrite E. cbn [bind app]. rewrite Hl.
  assert (copy buffer seg = seg) as ->.
  { unfold copy. unfold len in Hl. rewrite take_ge, drop_ge by lia.
    apply app_nil_r. }
  exists seg. auto.
Qed.

(** A [Read] while a traversal towards an earlier active end [ae] is
    still in progress (the state [AdjustLoop] leaves when the new end is
    behind the position): the read goes on to [ae], and only then
    enters the loop [ls, le). *)
Lemma Read_pending_end (fuel : nat) p ae (buffer : list byte) :
  0 <= p <= ae -> ae <= len data -> ae - p < len buffer ->
  len buffer + 3 <= Z.of_nat fuel ->
  exists seg,
    Looper.Read fuel (mkLooper (mem data chunk p) p ls ae le) buffer =
      Done (len buffer, None, bytes_at data p (ae - p) ++ seg,
            at_pos (loop_end ls le ls (len buffer - (ae - p)))) /\
    len seg = len buffer - (ae - p) /\
    forall i, 0 <= i < len buffer - (ae - p) ->
      seg !! Z.to_nat i = data !! Z.to_nat (loop_pos ls le ls i).
Proof.
  intros Hp Hae Hb Hf. unfold Looper.Read.
  destruct fuel as [|fuel]; [lia|].
  cbn [Read_loop].
  destruct (Z.gtb_spec (len buffer) 0); [|lia].
  cbn [activeLoopEnd position].
  replace (wrap64 (ae - p)) with (ae - p)
    by (unfold wrap64; rewrite Z.mod_small; lia).
  destruct (Z.ltb_spec (ae - p) 0); [lia|].
  destruct (Z.leb_spec (len buffer) (ae - p)); [lia|].
  destruct (Read_loop_mem fuel (S fuel) ls (len buffer - (ae - p))
              (bytes_at data p (ae - p))) as (seg & E & Hl & Hseg); try lia.
  { destruct (ls =? le); lia. }
  unfold LoopSpec.at_pos in E.
  assert (len (bytes_at data p (ae - p) ++ seg) = len buffer) as Hout.
  { pose proof (len_bytes_at data p (ae - p)) as L.
    unfold len in *. rewrite length_app. lia. }
  assert (copy buffer (bytes_at data p (ae - p) ++ seg) =
          bytes_at data p (ae - p) ++ seg) as Hcopy.
  { unfold copy. unfold len in Hout. rewrite take_ge, drop_ge by lia.
    apply app_nil_r. }
  exists seg. split; [|split; assumption].
  destruct (Z.gtb_spec (ae - p) 0).
  - rewrite (readAll_mem data chunk) by (cbn; (reflexivity || lia)).
    cbn [bind position loopStart loopEnd activeLoopEnd stream app
         set_activeLoopEnd set_position set_stream].
    rewrite mem_Seek_start by lia.
    unfold set_activeLoopEnd, set_position, set_stream.
    cbn [position loopStart loopEnd activeLoopEnd stream].
    rewrite E. cbn [bind]. rewrite Hout, Hcopy. reflexivity.
  - assert (ae - p = 0) as Z0 by lia. rewrite Z0 in *.
    cbn [bind position loopStart loopEnd activeLoopEnd stream
         set_activeLoopEnd set_position set_stream].
    rewrite mem_Seek_start by lia.
    unfold set_activeLoopEnd, set_position, set_stream.
    cbn [position loopStart loopEnd activeLoopEnd stream].
    change (bytes_at data p 0) with (@nil byte) in *.
    rewrite E. cbn [bind]. rewrite Hout, Hcopy. reflexivity.
Qed.

End Loop.


(** C4. Over a 32-byte stream (whatever the size of its partial
    reads), with loop [0, 16), active end 16 and position 0, one [Read]
    into a 20-byte buffer returns 20 and no error, the buffer holds
    bytes [0..16) then bytes [0..4) of the stream, and the position is
    4 afterwards. More generally one [Read] over a loop [ls, le) from a
    position [p <= le] fills the whole buffer, crossing the loop end as
    often as needed: byte [i] is the stream's byte at
    [loop_pos ls le p i]. *)
Theorem Read_crosses_loop :
  (forall data chunk buffer (fuel : nat),
     len data = 32 -> 1 <= chunk -> len buffer = 20 -> 22 <= Z.of_nat fuel ->
     Looper.Read fuel (mkLooper (mem data chunk 0) 0 0 16 16) buffer =
       Done (20, None, take 16 data ++ take 4 data,
             mkLooper (mem data chunk 4) 4 0 16 16)) /\
  (forall data chunk ls le p buffer (fuel : nat),
     1 <= chunk -> 0 <= ls < le -> le <= len data -> len data < 2 ^ 63 ->
     0 <= p <= le -> len buffer + 2 <= Z.of_nat fuel ->
     exists out,
       Looper.Read fuel (at_pos data chunk ls le p) buffer =
         Done (len buffer, None, out,
               at_pos data chunk ls le (loop_end ls le p (len buffer))) /\
       len out = len buffer /\
       forall i, 0 <= i < len buffer ->
         out !! Z.to_nat i = data !! Z.to_nat (loop_pos ls le p i)).
Proof.
  split.
  - intros data chunk buffer fuel Hd Hc Hb Hf.
    destruct (Read_mem data chunk 0 16 Hc ltac:(lia) ltac:(lia) ltac:(lia)
                fuel 0 buffer ltac:(lia) ltac:(lia)) as (out & E & Hl & Hout).
    unfold at_pos in E. rewrite E, Hb. rewrite Hb in Hl, Hout.
    change (loop_end 0 16 0 20) with 4.
    replace out with (take 16 data ++ take 4 data); [reflexivity|].
    apply list_eq. intros i.
    destruct (decide (i < 20)%nat) as [Hi|Hi].
    + specialize (Hout (Z.of_nat i) ltac:(lia)).
      rewrite Nat2Z.id in Hout. rewrite Hout. unfold len in Hd.
      destruct (decide (i < 16)%nat).
      * rewrite lookup_app_l by (rewrite length_take; lia).
        rewrite lookup_take_lt by lia.
        unfold loop_pos. destruct (Z.ltb_spec (0 + Z.of_nat i) 16); [|lia].
        f_equal. lia.
      * rewrite lookup_app_r by (rewrite length_take; lia).
        rewrite length_take. rewrite lookup_take_lt by lia.
        unfold loop_pos. destruct (Z.ltb_spec (0 + Z.of_nat i) 16); [lia|].
        f_equal. rewrite Z.mod_small by lia. lia.
    + unfold len in Hl, Hd.
      rewrite !lookup_ge_None_2; [reflexivity | lia |].
      rewrite length_app, !length_take. lia.
  - intros data chunk ls le p buffer fuel Hc Hl Hle Hd Hp Hf.
    exact (Read_mem data chunk ls le Hc Hl Hle Hd fuel p buffer Hp Hf).
Qed.

End LooperMem.


(** C1, as stated, fails when the active end already is the new end.
    A looper made by [NewLooper(stream, 0, 8)] and sought to 20 stands
    beyond its loop with active end 8; [AdjustLoop(0, 8)] finds
    [newEnd < position] and keeps the active end, which is [newEnd]:
    [activeLoopEnd = newEnd] holds although [newEnd >= position] does
    not. *)
Lemma AdjustLoop_end_already_active :
  let data := map Z.of_nat (seq 0 32) in
  exists self0 self1 self2,
    Looper.NewLooper (MemStream.mkMem data 0 5) 0 8 = Done self0 /\
    Looper.Seek self0 20 SeekStart = (20, None, self1) /\
    Looper.position self1 = 20 /\
    Looper.activeLoopEnd self1 = 8 /\
    Looper.AdjustLoop self1 0 8 = Done self2 /\
    Looper.activeLoopEnd self2 = Looper.activeLoopEnd self1 /\
    ~ (Looper.activeLoopEnd self2 = 8 <-> 8 >= Looper.position self1).
Proof.
  intros data.
  eexists _, _, _.
  split; [reflexivity|]. split; [reflexivity|].
  split; [reflexivity|]. split; [reflexivity|].
  split; [reflexivity|]. split; [reflexivity|].
  cbn. intros [H _]. specialize (H eq_refl). lia.
Qed.

(** The 32 bytes 0, 1, ..., 31 read five at a time. *)
Lemma Read_crosses_loop_witness :
  let data := map Z.of_nat (seq 0 32) in
  Looper.Read 22 (Looper.mkLooper (MemStream.mkMem data 0 5) 0 0 16 16)
              (repeat 0 20) =
    Done (20, None, take 16 data ++ take 4 data,
          Looper.mkLooper (MemStream.mkMem data 4 5) 4 0 16 16).
Proof.
  intros data.
  apply (proj1 Read_crosses_loop data 5 (repeat 0 20) 22%nat);
    [reflexivity | lia | reflexivity | lia].
Defined.

(** ** The circular window *)

Section WindowFacts.
Context {A : Type}.
Import Window.
Implicit Types (w : circularWindow A) (vs buf : list A).

Lemma range_length buf s e :
  (s <= e <= length buf)%nat -> length (range buf s e) = (e - s)%nat.
Proof. intros. unfold range. rewrite length_take, length_drop. lia. Qed.

Lemma range_insert_end buf s e v :
  (s <= e < length buf)%nat ->
  range (<[e := v]> buf) s (S e) = range buf s e ++ [v].
Proof.
  intros H. unfold range.
  rewrite drop_insert_ge by lia.
  replace (S e - s)%nat with (S (e - s)) by lia.
  rewrite (take_S_r _ _ v).
  - rewrite take_insert_ge by lia. reflexivity.
  - apply list_lookup_insert_eq. rewrite length_drop. lia.
Qed.

Lemma range_tail buf s e :
  range buf (S s) e = drop 1 (range buf s e).
Proof.
  unfold range.
  replace (drop (S s) buf) with (drop 1 (drop s buf))
    by (rewrite drop_drop; f_equal; lia).
  rewrite (take_drop_commute (drop s buf) (e - S s) 1).
  destruct (decide (s < e)%nat).
  - replace (1 + (e - S s))%nat with (e - s)%nat by lia. reflexivity.
  - replace (e - S s)%nat with 0%nat by lia.
    replace (e - s)%nat with 0%nat by lia.
    rewrite take_0. destruct (drop s buf); reflexivity.
Qed.

(** The compaction of [Push]: [src] moved to the front of the buffer,
    the new value stored right after it. *)
Lemma compact_insert buf src v :
  (length src < length buf)%nat ->
  range (<[length src := v]> (copy buf src)) 0 (S (length src)) = src ++ [v].
Proof.
  intros H. unfold range, copy. rewrite drop_0, Nat.sub_0_r.
  rewrite (take_ge src) by lia.
  rewrite insert_app_r_alt, Nat.sub_diag by lia.
  destruct (drop (length src) buf) as [|x rest] eqn:E.
  - apply (f_equal length) in E. rewrite length_drop in E. cbn in E. lia.
  - cbn [insert list_insert]. rewrite take_app_ge by lia.
    replace (S (length src) - length src)%nat with 1%nat by lia. reflexivity.
Qed.

Lemma last_n_short n vs v :
  (Z.of_nat (length vs) < n) -> last_n n (vs ++ [v]) = last_n n vs ++ [v].
Proof.
  intros H. unfold last_n. rewrite length_app. cbn [length].
  replace (length vs + 1 - Z.to_nat n)%nat with 0%nat by lia.
  replace (length vs - Z.to_nat n)%nat with 0%nat by lia. reflexivity.
Qed.

Lemma last_n_full n vs v :
  1 <= n <= Z.of_nat (length vs) ->
  last_n n (vs ++ [v]) = drop 1 (last_n n vs) ++ [v].
Proof.
  intros H. unfold last_n. rewrite length_app. cbn [length].
  rewrite drop_drop.
  replace (length vs + 1 - Z.to_nat n)%nat with (length vs - Z.to_nat n + 1)%nat by lia.
  apply drop_app_le. lia.
Qed.

Lemma last_n_length n vs :
  0 <= n -> Z.of_nat (length (last_n n vs)) = Z.min n (Z.of_nat (length vs)).
Proof. intros. unfold last_n. rewrite length_drop. lia. Qed.

Lemma window_inv_Reset w :
  0 <= len (buffer w) ->
  window_inv (winSize w) (len (buffer w)) (Reset w) [].
Proof.
  intros. unfold window_inv, Reset; cbn. repeat split; try lia.
Qed.

Lemma window_inv_Get n cap w vs :
  window_inv n cap w vs -> Get w = Done (last_n n vs).
Proof.
  intros (Hn & Hc & Hse & He & Hr). unfold Get.
  rewrite slice_Done by lia. rewrite <- Hr. unfold range.
  do 2 f_equal. lia.
Qed.

Lemma window_inv_Push n cap w vs v :
  1 <= n <= cap -> window_inv n cap w vs ->
  exists w', Push w v = Done w' /\ window_inv n cap w' (vs ++ [v]).
Proof.
  intros Hcap (Hn & Hc & Hse & He & Hr).
  assert (Z.of_nat (length (last_n n vs)) = endIndex w - startIndex w) as Hlen.
  { rewrite <- Hr, range_length; unfold len in *; lia. }
  rewrite last_n_length in Hlen by lia.
  unfold Push. rewrite Hn, Hc.
  destruct (Z.ltb_spec (endIndex w) cap) as [Hroom|Hend].
  - (* in place *)
    rewrite store_Done by lia. cbn [bind].
    destruct (Z.eqb_spec n (endIndex w - startIndex w)) as [Hfull|Hpart];
      eexists; (split; [reflexivity|]); unfold window_inv; cbn;
      rewrite len_insert; repeat split; try lia.
    + replace (Z.to_nat (startIndex w + 1)) with (S (Z.to_nat (startIndex w))) by lia.
      replace (Z.to_nat (endIndex w + 1)) with (S (Z.to_nat (endIndex w))) by lia.
      rewrite range_tail, range_insert_end by (unfold len in *; lia).
      rewrite Hr, last_n_full by lia.
      pose proof (last_n_length n vs ltac:(lia)) as Hne.
      destruct (last_n n vs) eqn:E; [cbn in Hne; lia|reflexivity].
    + replace (Z.to_nat (endIndex w + 1)) with (S (Z.to_nat (endIndex w))) by lia.
      rewrite range_insert_end by (unfold len in *; lia).
      rewrite Hr, last_n_short by lia. reflexivity.
  - (* the buffer is used up: compaction *)
    assert (endIndex w = cap) as Hcap' by lia.
    destruct (Z.eqb_spec n (endIndex w - startIndex w)) as [Hfull|Hpart].
    + rewrite slice_Done by lia. cbn [bind].
      set (src := take _ _).
      assert (src = drop 1 (last_n n vs)) as Hsrc.
      { rewrite <- Hr, <- range_tail. unfold src, range. f_equal; [lia|f_equal; lia]. }
      assert (Z.of_nat (length src) = n - 1) as Hsl.
      { rewrite Hsrc, length_drop.
        pose proof (last_n_length n vs ltac:(lia)). lia. }
      rewrite store_Done
        by (unfold len, copy in *; rewrite length_app, length_take, length_drop; lia).
      cbn [bind]. eexists; split; [reflexivity|].
      unfold window_inv; cbn. rewrite len_insert. repeat split; try lia.
      * unfold len, copy in *. rewrite length_app, length_take, length_drop. lia.
      * replace (Z.to_nat (n - 1)) with (length src) by lia.
        replace (Z.to_nat n) with (S (length src)) by lia.
        change (Z.to_nat 0) with 0%nat.
        rewrite compact_insert by (unfold len in *; lia).
        rewrite Hsrc, last_n_full by lia. reflexivity.
    + rewrite slice_Done by lia. cbn [bind].
      set (src := take _ _).
      assert (src = last_n n vs) as Hsrc.
      { rewrite <- Hr. unfold src, range. f_equal. lia. }
      assert (Z.of_nat (length src) = endIndex w - startIndex w) as Hsl.
      { rewrite Hsrc, last_n_length by lia. lia. }
      rewrite store_Done
        by (unfold len, copy in *; rewrite length_app, length_take, length_drop; lia).
      cbn [bind]. eexists; split; [reflexivity|].
      unfold window_inv; cbn. rewrite len_insert. repeat split; try lia.
      * unfold len, copy in *. rewrite length_app, length_take, length_drop. lia.
      * replace (Z.to_nat (endIndex w - startIndex w)) with (length src) by lia.
        replace (Z.to_nat (endIndex w - startIndex w + 1)) with (S (length src)) by lia.
        change (Z.to_nat 0) with 0%nat.
        rewrite compact_insert by (unfold len in *; lia).
        rewrite Hsrc, last_n_short by lia. reflexivity.
Qed.

Lemma window_inv_PushAll n cap vs : forall w pre,
  1 <= n <= cap -> window_inv n cap w pre ->
  exists w', PushAll w vs = Done w' /\ window_inv n cap w' (pre ++ vs).
Proof.
  induction vs as [|v vs IH]; intros w pre Hcap Hinv.
  - exists w. rewrite app_nil_r. auto.
  - destruct (window_inv_Push n cap w pre v Hcap Hinv) as (w1 & E1 & H1).
    destruct (IH w1 (pre ++ [v]) Hcap H1) as (w2 & E2 & H2).
    exists w2. cbn [PushAll]. rewrite E1. cbn [bind].
    rewrite <- app_assoc in H2. auto.
Qed.

(** C6. For a window of size [winSize] over a buffer that can hold
    it, after a [Reset] and any sequence of pushes every push succeeds
    and [Get] returns the last [winSize] pushed values, oldest first,
    once [winSize] values have been pushed, and all the values pushed so
    far before that; whether the pushes went in place or through the
    compaction of the buffer. *)
Theorem Get_after_pushes w vs :
  1 <= winSize w <= len (buffer w) ->
  exists w',
    PushAll (Reset w) vs = Done w' /\
    (winSize w <= len vs ->
       Get w' = Done (drop (length vs - Z.to_nat (winSize w)) vs) /\
       len (drop (length vs - Z.to_nat (winSize w)) vs) = winSize w) /\
    (len vs <= winSize w -> Get w' = Done vs).
Proof.
  intros Hcap.
  destruct (window_inv_PushAll (winSize w) (len (buffer w)) vs (Reset w) [] Hcap)
    as (w' & E & Hinv).
  { apply (window_inv_Reset w). lia. }
  cbn [app] in Hinv. apply window_inv_Get in Hinv.
  exists w'. split; [assumption|]. split; intros Hl.
  - split; [exact Hinv|]. unfold len in *. rewrite length_drop. lia.
  - rewrite Hinv. unfold last_n, len in *.
    replace (length vs - Z.to_nat (winSize w))%nat with 0%nat by lia.
    reflexivity.
Qed.

End WindowFacts.

(** A window of size 2 over a buffer of 3 slots, left in an arbitrary
    state: the six pushes go twice through the compaction. *)
Lemma Get_after_pushes_witness :
  let w := Window.mkWindow 2 [0; 0; 0] 5 7 in
  let vs := [1; 2; 3; 4; 5; 6] in
  exists w',
    Window.PushAll (Window.Reset w) vs = Done w' /\
    (2 <= len vs -> Window.Get w' = Done [5; 6] /\ len [5; 6] = 2) /\
    (len vs <= 2 -> Window.Get w' = Done vs).
Proof.
  intros w vs.
  apply (Get_after_pushes w vs). unfold len; simpl; lia.
Defined.

(** ** The interpolators *)

Section InterpFacts.
Import Interp.
Local Open Scope Q_scope.

(** One factor of a Lagrange basis polynomial. *)
Local Abbreviation factor t k :=
  (fun (l : Q) (m : Z) =>
     if (k =? m)%Z then l else l * ((t - inject_Z m) / inject_Z (k - m))).

















End InterpFacts.



(** ** Clipping floats to int16 *)

Section ClipFacts.
Import Samples.

Lemma digits2_pos_bound m : Z.pos m < 2 ^ Z.pos (digits2_pos m).
Proof.
  induction m as [m IH|m IH|]; cbn [digits2_pos];
    rewrite ?Pos2Z.inj_succ, ?Z.pow_succ_r by lia; lia.
Qed.

(** The mantissa of a float64 has at most 53 bits. *)
Lemma valid_mantissa s m e :
  valid_binary prec emax (S754_finite s m e) = true -> Z.pos m < 2 ^ 53.
Proof.
  cbn [valid_binary]. unfold bounded, canonical_mantissa, fexp, emin, prec, emax.
  intros H. apply andb_true_iff in H as [H _]. apply Z.eqb_eq in H.
  pose proof (digits2_pos_bound m) as B.
  assert (Z.pos (digits2_pos m) <= 53) as D by lia.
  pose proof (Z.pow_le_mono_r 2 _ 53 ltac:(lia) D). lia.
Qed.

Lemma c32767 : SFof_int 32767 = S754_finite false 9006924376834048 (-38).
Proof. reflexivity. Qed.

Lemma cm32768 : SFof_int (-32768) = S754_finite true 4503599627370496 (-37).
Proof. reflexivity. Qed.

Lemma c1 : SFof_int 1 = S754_finite false 4503599627370496 (-52).
Proof. reflexivity. Qed.

Lemma cm1 : SFof_int (-1) = S754_finite true 4503599627370496 (-52).
Proof. reflexivity. Qed.

Lemma c0 : SFof_int 0 = S754_zero false.
Proof. reflexivity. Qed.

(** The order of two finite floats of the same sign, read off their
    exponents and mantissas. *)
Lemma SFleb_pos_false m1 e1 m2 e2 :
  SFleb (S754_finite false m1 e1) (S754_finite false m2 e2) = false ->
  e2 < e1 \/ (e1 = e2 /\ Z.pos m2 < Z.pos m1).
Proof.
  unfold SFleb, SFcompare.
  change (Pos.compare_cont Eq m1 m2) with (Pos.compare m1 m2).
  destruct (Z.compare_spec e1 e2); try discriminate; [|lia].
  destruct (Pos.compare_spec m1 m2); try discriminate. lia.
Qed.

Lemma SFleb_neg_false m1 e1 m2 e2 :
  SFleb (S754_finite true m1 e1) (S754_finite true m2 e2) = false ->
  e1 < e2 \/ (e1 = e2 /\ Z.pos m1 < Z.pos m2).
Proof.
  unfold SFleb, SFcompare.
  change (Pos.compare_cont Eq m1 m2) with (Pos.compare m1 m2).
  destruct (Z.compare_spec e1 e2); try discriminate; [|lia].
  destruct (Pos.compare_spec m1 m2); try discriminate. lia.
Qed.

(** A positive float below 32767: its integer part is below 32767. *)
Lemma trunc_below_32767 m e :
  Z.pos m < 2 ^ 53 ->
  SFleb (SFof_int 32767) (S754_finite false m e) = false ->
  0 <= Z.pos m * 2 ^ Z.max e 0 ÷ 2 ^ Z.max (- e) 0 < 32767.
Proof.
  intros Hm H. rewrite c32767 in H. apply SFleb_pos_false in H.
  rewrite Z.max_r, Z.max_l by lia.
  change (2 ^ 0) with 1. rewrite Z.mul_1_r.
  assert (e < -38 -> 2 ^ 39 <= 2 ^ (- e)) as Hp
    by (intros; apply Z.pow_le_mono_r; lia).
  assert (e = -38 -> 2 ^ (- e) = 2 ^ 38) as He by (intros ->; reflexivity).
  generalize dependent (2 ^ (- e)). intros p Hp He.
  assert (0 < p) by (destruct H as [H|[H1 H2]]; [|rewrite He]; lia).
  rewrite Z.quot_div_nonneg by lia.
  split; [apply Z.div_pos; lia|].
  apply Z.div_lt_upper_bound; [lia|].
  destruct H as [H|[H1 H2]]; [|rewrite He by lia]; lia.
Qed.

(** A negative float above -32768: its integer part is above -32768. *)
Lemma trunc_above_m32768 m e :
  Z.pos m < 2 ^ 53 ->
  SFleb (S754_finite true m e) (SFof_int (-32768)) = false ->
  -32768 < Z.neg m * 2 ^ Z.max e 0 ÷ 2 ^ Z.max (- e) 0 <= 0.
Proof.
  intros Hm H. rewrite cm32768 in H. apply SFleb_neg_false in H.
  rewrite Z.max_r, Z.max_l by lia.
  change (2 ^ 0) with 1. rewrite Z.mul_1_r.
  assert (e < -37 -> 2 ^ 38 <= 2 ^ (- e)) as Hp
    by (intros; apply Z.pow_le_mono_r; lia).
  assert (e = -37 -> 2 ^ (- e) = 2 ^ 37) as He by (intros ->; reflexivity).
  generalize dependent (2 ^ (- e)). intros p Hp He.
  assert (0 < p) by (destruct H as [H|[H1 H2]]; [|rewrite He]; lia).
  change (Z.neg m) with (- Z.pos m).
  rewrite Z.quot_opp_l, Z.quot_div_nonneg by lia.
  assert (0 <= Z.pos m / p < 32768); [|lia].
  split; [apply Z.div_pos; lia|].
  apply Z.div_lt_upper_bound; [lia|].
  destruct H as [H|[H1 H2]]; [|rewrite He by lia]; lia.
Qed.

Lemma shr_1_m mrs : 0 <= shr_m mrs -> shr_m (shr_1 mrs) = shr_m mrs / 2.
Proof.
  destruct mrs as [m r s]. cbn [shr_m]. intros Hm.
  destruct m as [|[p|p|]|p]; cbn [shr_1 shr_m].
  - reflexivity.
  - rewrite Pos2Z.inj_xI. apply (Z.div_unique _ _ _ 1); lia.
  - rewrite Pos2Z.inj_xO. apply (Z.div_unique _ _ _ 0); lia.
  - reflexivity.
  - lia.
Qed.

Lemma iter_shr_1_m p : forall mrs,
  0 <= shr_m mrs ->
  shr_m (SpecFloat.iter_pos shr_1 p mrs) = shr_m mrs / 2 ^ Z.pos p.
Proof.
  induction p as [p IH|p IH|]; intros mrs Hm; cbn [SpecFloat.iter_pos].
  - assert (0 <= shr_m (shr_1 mrs)) as H1
      by (rewrite shr_1_m by lia; apply Z.div_pos; lia).
    assert (0 <= shr_m (SpecFloat.iter_pos shr_1 p (shr_1 mrs))) as H2
      by (rewrite IH by lia; apply Z.div_pos; lia).
    rewrite IH, IH, shr_1_m by lia.
    rewrite !Z.div_div by lia.
    f_equal. rewrite Pos2Z.inj_xI, Z.pow_add_r, Z.pow_mul_r by lia.
    change (2 ^ 2) with 4. change (2 ^ 1) with 2.
    replace (4 ^ Z.pos p) with (2 ^ Z.pos p * 2 ^ Z.pos p); [lia|].
    rewrite <- Z.pow_add_r by lia. replace (Z.pos p + Z.pos p) with (2 * Z.pos p) by lia.
    rewrite Z.pow_mul_r by lia. reflexivity.
  - assert (0 <= shr_m (SpecFloat.iter_pos shr_1 p mrs)) as H2
      by (rewrite IH by lia; apply Z.div_pos; lia).
    rewrite IH, IH by lia.
    rewrite !Z.div_div by lia.
    f_equal. rewrite Pos2Z.inj_xO, <- Z.pow_add_r by lia. f_equal. lia.
  - rewrite shr_1_m by lia. reflexivity.
Qed.

Lemma digits2_pos_lower m : 2 ^ (Z.pos (digits2_pos m) - 1) <= Z.pos m.
Proof.
  induction m as [m IH|m IH|]; cbn [digits2_pos]; [| |reflexivity].
  - rewrite Pos2Z.inj_succ. replace (Z.succ (Z.pos (digits2_pos m)) - 1)
      with (Z.succ (Z.pos (digits2_pos m) - 1)) by lia.
    rewrite Z.pow_succ_r by lia. lia.
  - rewrite Pos2Z.inj_succ. replace (Z.succ (Z.pos (digits2_pos m)) - 1)
      with (Z.succ (Z.pos (digits2_pos m) - 1)) by lia.
    rewrite Z.pow_succ_r by lia. lia.
Qed.

Lemma Zdigits2_le m k : 0 <= m < 2 ^ k -> 0 <= k -> Zdigits2 m <= k.
Proof.
  intros [H0 Hm] Hk. destruct m as [|p|p]; cbn [Zdigits2]; try lia.
  pose proof (digits2_pos_lower p) as L.
  destruct (Z.le_gt_cases (Z.pos (digits2_pos p)) k) as [|G]; [assumption|].
  assert (2 ^ k <= 2 ^ (Z.pos (digits2_pos p) - 1)) by (apply Z.pow_le_mono_r; lia).
  lia.
Qed.

Lemma shr_fexp_spec m e l :
  0 <= m ->
  exists n, 0 <= n /\
    snd (shr_fexp prec emax m e l) = e + n /\
    shr_m (fst (shr_fexp prec emax m e l)) = m / 2 ^ n /\
    e + n = Z.max e (fexp prec emax (Zdigits2 m + e)).
Proof.
  intros Hm. unfold shr_fexp, shr.
  assert (shr_m (shr_record_of_loc m l) = m) as Hr by (destruct l as [|[]]; reflexivity).
  destruct (fexp prec emax (Zdigits2 m + e) - e) as [|p|p] eqn:E.
  - exists 0. cbn [fst snd]. rewrite Hr, Z.div_1_r. lia.
  - exists (Z.pos p). cbn [fst snd]. rewrite iter_shr_1_m, Hr by lia. lia.
  - exists 0. cbn [fst snd]. rewrite Hr, Z.div_1_r. lia.
Qed.

Lemma round_nearest_even_bounds m l :
  m <= round_nearest_even m l <= m + 1.
Proof. destruct l as [|[]]; cbn; try lia. destruct (Z.even m); lia. Qed.

Lemma pow2_split a b : 0 <= a -> 0 <= b -> 2 ^ (a + b) = 2 ^ a * 2 ^ b.
Proof. intros. apply Z.pow_add_r; lia. Qed.

(** Rounding a product that is below an integer bound [B <= 2^15]
    gives zero or a finite float that is at most [B]. *)
Lemma binary_round_aux_bound sx mx ex B :
  0 < mx -> ex <= 0 -> 0 < B <= 2 ^ 15 -> mx < B * 2 ^ (- ex) ->
  match binary_round_aux prec emax sx mx ex loc_Exact with
  | S754_zero s => s = sx
  | S754_finite s m e => s = sx /\ e <= 0 /\ Z.pos m <= B * 2 ^ (- e)
  | _ => False
  end.
Proof.
  intros Hmx Hex HB Hlt. unfold binary_round_aux.
  destruct (shr_fexp_spec mx ex loc_Exact ltac:(lia)) as (n1 & Hn1 & He1 & Hm1 & Hmax1).
  destruct (shr_fexp prec emax mx ex loc_Exact) as [mrs1 e1]. cbn [fst snd] in *. subst e1.
  set (m1 := shr_m mrs1) in *.
  set (m2 := round_nearest_even m1 (loc_of_shr_record mrs1)).
  pose proof (round_nearest_even_bounds m1 (loc_of_shr_record mrs1)) as Hm2. fold m2 in Hm2.
  (* the exponent after the first shift is not positive *)
  assert (2 ^ (- ex) <= 2 ^ (15 - ex) /\ B * 2 ^ (- ex) <= 2 ^ (15 - ex)) as [_ HBx].
  { replace (15 - ex) with (15 + - ex) by lia. rewrite pow2_split by lia.
    assert (0 < 2 ^ (- ex)) by (apply Z.pow_pos_nonneg; lia). nia. }
  assert (ex + n1 <= 0) as He1.
  { rewrite Hmax1. apply Z.max_lub; [lia|].
    pose proof (Zdigits2_le mx (15 - ex) ltac:(lia) ltac:(lia)).
    unfold fexp, emin, prec, emax. lia. }
  (* the mantissa after the first rounding is at most B * 2^-(ex+n1) *)
  assert (2 ^ (- ex) = 2 ^ (- (ex + n1)) * 2 ^ n1) as Hsplit
    by (rewrite <- pow2_split by lia; f_equal; lia).
  assert (0 < 2 ^ n1) as Hp1 by (apply Z.pow_pos_nonneg; lia).
  assert (0 < 2 ^ (- (ex + n1))) as Hq1 by (apply Z.pow_pos_nonneg; lia).
  assert (0 <= m1 < B * 2 ^ (- (ex + n1))) as Hm1b.
  { rewrite Hm1. split; [apply Z.div_pos; lia|].
    apply Z.div_lt_upper_bound; [lia|]. rewrite Hsplit in Hlt. nia. }
  (* second shift *)
  destruct (shr_fexp_spec m2 (ex + n1) loc_Exact ltac:(lia)) as (n2 & Hn2 & He2 & Hm3 & Hmax2).
  destruct (shr_fexp prec emax m2 (ex + n1) loc_Exact) as [mrs2 e2].
  cbn [fst snd] in *. subst e2.
  assert (ex + n1 + n2 <= 0) as He2.
  { rewrite Hmax2. apply Z.max_lub; [lia|].
    assert (B * 2 ^ (- (ex + n1)) <= 2 ^ (15 - (ex + n1))).
    { replace (15 - (ex + n1)) with (15 + - (ex + n1)) by lia.
      rewrite pow2_split by lia. nia. }
    assert (2 ^ (15 - (ex + n1)) < 2 ^ (16 - (ex + n1)))
      by (apply Z.pow_lt_mono_r; lia).
    pose proof (Zdigits2_le m2 (16 - (ex + n1)) ltac:(lia) ltac:(lia)).
    unfold fexp, emin, prec, emax. lia. }
  assert (2 ^ (- (ex + n1)) = 2 ^ (- (ex + n1 + n2)) * 2 ^ n2) as Hsplit2
    by (rewrite <- pow2_split by lia; f_equal; lia).
  assert (0 < 2 ^ n2) as Hp2 by (apply Z.pow_pos_nonneg; lia).
  assert (0 < 2 ^ (- (ex + n1 + n2))) as Hq2 by (apply Z.pow_pos_nonneg; lia).
  assert (0 <= shr_m mrs2 <= B * 2 ^ (- (ex + n1 + n2))) as Hm3b.
  { rewrite Hm3. split; [apply Z.div_pos; lia|].
    apply Z.div_le_upper_bound; [lia|]. rewrite Hsplit2 in Hm1b. nia. }
  destruct (shr_m mrs2) as [|m|m]; [reflexivity| |lia].
  destruct (Z.leb_spec (ex + n1 + n2) (emax - prec)); [|unfold emax, prec in *; lia].
  split; [reflexivity|]. split; [exact He2|apply Hm3b].
Qed.

Lemma SFtrunc_bound s m e B :
  e <= 0 -> Z.pos m <= B * 2 ^ (- e) ->
  exists z, SFtrunc (S754_finite s m e) = Some (cond_Zopp s z) /\ 0 <= z <= B.
Proof.
  intros He Hm. unfold SFtrunc.
  rewrite Z.max_r, Z.max_l by lia. change (2 ^ 0) with 1. rewrite Z.mul_1_r.
  assert (0 < 2 ^ (- e)) as Hp by (apply Z.pow_pos_nonneg; lia).
  exists (Z.pos m / 2 ^ (- e)). split.
  - f_equal. destruct s; cbn [cond_Zopp].
    + rewrite Z.quot_opp_l, Z.quot_div_nonneg by lia. reflexivity.
    + rewrite Z.quot_div_nonneg by lia. reflexivity.
  - split; [apply Z.div_pos; lia|].
    apply Z.div_le_upper_bound; [lia|]. lia.
Qed.


Lemma c32768 : SFof_int 32768 = S754_finite false 4503599627370496 (-37).
Proof. reflexivity. Qed.

(** A float in [0, 1) times 32767.0: the rounded product is a number
    whose integer part is between 0 and 32767. *)
Lemma mul_32767_range m e :
  Z.pos m < 2 ^ 53 ->
  SFleb (SFof_int 1) (S754_finite false m e) = false ->
  exists z, SFtrunc (SFmul prec emax (S754_finite false m e) (SFof_int 32767)) = Some z /\
            0 <= z <= 32767.
Proof.
  intros Hm H. rewrite c1 in H. apply SFleb_pos_false in H.
  assert (e <= -52 /\ Z.pos m < 2 ^ (- e)) as [He Hme].
  { destruct H as [H|[<- H]]; [|split; [lia|exact H]].
    split; [lia|].
    assert (2 ^ 53 <= 2 ^ (- e)) by (apply Z.pow_le_mono_r; lia). lia. }
  rewrite c32767. unfold SFmul. cbn [xorb].
  pose proof (binary_round_aux_bound false (Z.pos (m * 9006924376834048)) (e + -38) 32767)
    as R.
  destruct (binary_round_aux prec emax false (Z.pos (m * 9006924376834048)) (e + -38) loc_Exact)
    as [s|s| |s m' e'].
  - exists 0. split; [reflexivity|lia].
  - exfalso. apply R; try lia.
    rewrite Pos2Z.inj_mul.
    replace (- (e + -38)) with (38 + - e) by lia. rewrite pow2_split by lia.
    change (2 ^ 38) with 274877906944. nia.
  - exfalso. apply R; try lia.
    rewrite Pos2Z.inj_mul.
    replace (- (e + -38)) with (38 + - e) by lia. rewrite pow2_split by lia.
    change (2 ^ 38) with 274877906944. nia.
  - destruct R as (-> & He' & Hm'); try lia.
    { rewrite Pos2Z.inj_mul.
      replace (- (e + -38)) with (38 + - e) by lia. rewrite pow2_split by lia.
      change (2 ^ 38) with 274877906944. nia. }
    destruct (SFtrunc_bound false m' e' 32767 He' Hm') as (z & E & Hz).
    exists z. split; [exact E|exact Hz].
Qed.

(** A float in (-1, 0) times 32768.0: the integer part of the product
    is between -32768 and 0. *)
Lemma mul_32768_range m e :
  Z.pos m < 2 ^ 53 ->
  SFleb (S754_finite true m e) (SFof_int (-1)) = false ->
  exists z, SFtrunc (SFmul prec emax (S754_finite true m e) (SFof_int 32768)) = Some z /\
            -32768 <= z <= 0.
Proof.
  intros Hm H. rewrite cm1 in H. apply SFleb_neg_false in H.
  assert (e <= -52 /\ Z.pos m < 2 ^ (- e)) as [He Hme].
  { destruct H as [H|[-> H]]; [|split; [lia|exact H]].
    split; [lia|].
    assert (2 ^ 53 <= 2 ^ (- e)) by (apply Z.pow_le_mono_r; lia). lia. }
  rewrite c32768. unfold SFmul. cbn [xorb].
  pose proof (binary_round_aux_bound true (Z.pos (m * 4503599627370496)) (e + -37) 32768)
    as R.
  destruct (binary_round_aux prec emax true (Z.pos (m * 4503599627370496)) (e + -37) loc_Exact)
    as [s|s| |s m' e'].
  - exists 0. split; [reflexivity|lia].
  - exfalso. apply R; try lia.
    rewrite Pos2Z.inj_mul.
    replace (- (e + -37)) with (37 + - e) by lia. rewrite pow2_split by lia.
    change (2 ^ 37) with 137438953472. nia.
  - exfalso. apply R; try lia.
    rewrite Pos2Z.inj_mul.
    replace (- (e + -37)) with (37 + - e) by lia. rewrite pow2_split by lia.
    change (2 ^ 37) with 137438953472. nia.
  - destruct R as (-> & He' & Hm'); try lia.
    { rewrite Pos2Z.inj_mul.
      replace (- (e + -37)) with (37 + - e) by lia. rewrite pow2_split by lia.
      change (2 ^ 37) with 137438953472. nia. }
    destruct (SFtrunc_bound true m' e' 32768 He' Hm') as (z & E & Hz).
    exists (- z). split; [exact E|lia].
Qed.

Lemma SFto_i16_trunc (x : float64) z :
  SFtrunc x = Some z -> - 2 ^ 15 <= z <= 2 ^ 15 - 1 ->
  SFto_int (- 2 ^ 15) (2 ^ 15 - 1) 0 x = z.
Proof.
  intros E Hz. unfold SFto_int. rewrite E.
  destruct (Z.leb_spec (- 2 ^ 15) z); [|lia].
  destruct (Z.leb_spec z (2 ^ 15 - 1)); [|lia]. reflexivity.
Qed.

(** C8. Raw values: [value >= 32767] encodes to 32767,
    [value <= -32768] to -32768, and any other number (not NaN) to its
    integer part, truncated toward zero, which then lies strictly
    between the two bounds. Normalized values: [value >= 1.0] encodes to
    32767, [value <= -1.0] to -32768; otherwise the value is multiplied
    by 32767 when [value >= 0] and by 32768 when not, and the product
    is converted to int16, which for a number is the truncation toward
    zero of the (rounded) product and lies within the int16 range. *)
Theorem clip_and_norm (value : float64) :
  ((value >=? f_of_int 32767)%F = true -> clipFloatToI16 value = 32767) /\
  ((value >=? f_of_int 32767)%F = false ->
   (value <=? f_of_int (-32768))%F = true -> clipFloatToI16 value = -32768) /\
  ((value >=? f_of_int 32767)%F = false ->
   (value <=? f_of_int (-32768))%F = false ->
   value <> S754_nan -> valid_binary prec emax value = true ->
   exists z, SFtrunc value = Some z /\ -32768 < z < 32767 /\
             clipFloatToI16 value = z) /\
  ((value >=? f_of_int 1)%F = true -> normFloatToI16 value = 32767) /\
  ((value <=? f_of_int (-1))%F = true -> normFloatToI16 value = -32768) /\
  ((value >=? f_of_int 1)%F = false -> (value >=? f_of_int 0)%F = true ->
   normFloatToI16 value = f_to_i16 (value * f_of_int 32767)%F /\
   (valid_binary prec emax value = true ->
    exists z, SFtrunc (value * f_of_int 32767)%F = Some z /\ 0 <= z <= 32767 /\
              normFloatToI16 value = z)) /\
  ((value <=? f_of_int (-1))%F = false -> (value >=? f_of_int 0)%F = false ->
   normFloatToI16 value = f_to_i16 (value * f_of_int 32768)%F /\
   (value <> S754_nan -> valid_binary prec emax value = true ->
    exists z, SFtrunc (value * f_of_int 32768)%F = Some z /\ -32768 <= z <= 0 /\
              normFloatToI16 value = z)).
Proof.
  unfold clipFloatToI16, normFloatToI16. cbn [f_le f_of_int f_to_i16 f_mul binary64].
  split; [|split; [|split; [|split; [|split; [|split]]]]].
  - intros ->. reflexivity.
  - intros -> ->. reflexivity.
  - intros H1 H2 Hnan Hvalid. rewrite H1, H2.
    destruct value as [s|s| |s m e].
    + exists 0. split; [reflexivity|]. split; [lia|reflexivity].
    + destruct s; discriminate.
    + contradiction.
    + pose proof (valid_mantissa s m e Hvalid) as Hm.
      eexists. split; [reflexivity|].
      assert (-32768 < cond_Zopp s (Z.pos m) * 2 ^ Z.max e 0 ÷ 2 ^ Z.max (- e) 0 < 32767)
        as Hz.
      { destruct s; cbn [cond_Zopp].
        - pose proof (trunc_above_m32768 m e Hm H2). change (- Z.pos m) with (Z.neg m). lia.
        - pose proof (trunc_below_32767 m e Hm H1). lia. }
      split; [exact Hz|].
      apply SFto_i16_trunc; [reflexivity|lia].
  - intros H1. rewrite H1.
    replace (SFleb (SFof_int 0) value) with true; [reflexivity|].
    rewrite c1 in H1. rewrite c0.
    destruct value as [s|[|]| |[|] m e]; try discriminate; reflexivity.
  - intros H1. rewrite H1.
    replace (SFleb (SFof_int 0) value) with false; [reflexivity|].
    rewrite cm1 in H1. rewrite c0.
    destruct value as [s|[|]| |[|] m e]; try discriminate; reflexivity.
  - intros H1 H0. rewrite H1, H0. split; [reflexivity|]. intros Hvalid.
    destruct value as [s|[|]| |[|] m e]; try discriminate.
    + exists 0. split; [reflexivity|]. split; [lia|reflexivity].
    + destruct (mul_32767_range m e (valid_mantissa _ _ _ Hvalid) H1) as (z & E & Hz).
      exists z. split; [exact E|]. split; [exact Hz|].
      apply SFto_i16_trunc; [exact E|lia].
  - intros H1 H0. rewrite H1, H0. split; [reflexivity|]. intros Hnan Hvalid.
    destruct value as [s|[|]| |[|] m e]; try discriminate; try contradiction.
    destruct (mul_32768_range m e (valid_mantissa _ _ _ Hvalid) H1) as (z & E & Hz).
    exists z. split; [exact E|]. split; [exact Hz|].
    apply SFto_i16_trunc; [exact E|lia].
Qed.

End ClipFacts.

(** 1234.75 as a raw value and -0.5 as a normalized one. *)
Lemma clip_and_norm_witness :
  (exists z, SFtrunc (f_lit 4939 4) = Some z /\ -32768 < z < 32767 /\
             Samples.clipFloatToI16 (f_lit 4939 4 : float64) = z) /\
  (exists z, SFtrunc ((f_lit (-1) 2 : float64) * f_of_int 32768)%F = Some z /\
             -32768 <= z <= 0 /\
             Samples.normFloatToI16 (f_lit (-1) 2 : float64) = z).
Proof.
  split.
  - apply (proj1 (proj2 (proj2 (clip_and_norm (f_lit 4939 4)))));
      [reflexivity | reflexivity | discriminate | reflexivity].
  - apply (proj2 (proj2 (proj2 (proj2 (proj2 (proj2 (clip_and_norm (f_lit (-1) 2))))))));
      [reflexivity | reflexivity | discriminate | reflexivity].
Defined.

(** ** The speed shifter *)

Lemma bind_Done {A B} (m : go A) (k : A -> go B) (b : B) :
  bind m k = Done b -> exists a, m = Done a /\ k a = Done b.
Proof. destruct m; cbn; intros E; try discriminate. eauto. Qed.

(** Going through [let!] in a hypothesis [H : ... = Done _]. *)
Ltac bind_inv H :=
  let x := fresh "x" in
  let E := fresh "E" in
  apply bind_Done in H as (x & E & H).

Lemma aligned_add a b : a mod 4 = 0 -> b mod 4 = 0 -> (a + b) mod 4 = 0.
Proof. intros Ha Hb. rewrite Z.add_mod, Ha, Hb by lia. reflexivity. Qed.

Section ShifterAlignment.
Context {F : Type} `{Float64 F} {S : Type} `{Reader S} `{Shifter.MaybeSeeker S}.
Import Samples Window Shifter.
Implicit Types (self : SpeedShifter F S) (st : processState (F:=F)).

(** The emit/advance loop serves whole samples. *)
Lemma processLoop_aligned (fuel : nat) : forall self st st',
  processLoop fuel self st = Done st' ->
  p_bytesServed st mod 4 = 0 -> p_bytesServed st' mod 4 = 0.
Proof.
  induction fuel as [|fuel IH]; intros self st st' E Hal; [discriminate|].
  cbn [processLoop] in E. destruct st as [buffer bytesServed readBuffer fracPos l r].
  cbn [p_bytesServed] in Hal.
  destruct ((len readBuffer >=? 4) && (bytesServed <? len buffer)).
  - bind_inv E. destruct x as [[buffer' bytesServed'] fracPos'].
    bind_inv E. destruct x as [[[readBuffer' fracPos''] l'] r'].
    apply IH in E; [exact E|]. cbn [p_bytesServed].
    destruct (fracPos <? f_of_int 1)%F.
    + repeat (let x := fresh "x" in let E' := fresh "E" in
              apply bind_Done in E0 as (x & E' & E0)).
      injection E0 as _ <- _. apply aligned_add; [exact Hal|reflexivity].
    + injection E0 as _ <- _. exact Hal.
  - injection E as <-. exact Hal.
Qed.

Lemma singleRead_aligned (fuel : nat) self buffer n err buffer' self' :
  singleRead fuel self buffer = Done (n, err, buffer', self') -> n mod 4 = 0.
Proof.
  unfold singleRead. intros E.
  destruct (len buffer =? 0); [injection E as <- _ _ _; reflexivity|].
  destruct (_ <=? 0); [discriminate|].
  bind_inv E. bind_inv E. bind_inv E.
  destruct (io_Read _ _) as [[data rerr] src].
  bind_inv E. bind_inv E. destruct x3 as [[[[early rest] lookahead] l] r].
  destruct early.
  - injection E as <- _ _ _. reflexivity.
  - bind_inv E. destruct (_ <? 0); [discriminate|].
    injection E as <- _ _ _.
    match goal with
    | P : processLoop _ _ _ = Done _ |- _ =>
        apply processLoop_aligned in P; [exact P|reflexivity]
    end.
Qed.

Lemma Read_loop_aligned (fuel : nat) : forall sfuel self buffer served n err buffer' self',
  Shifter.Read_loop fuel sfuel self buffer served = Done (n, err, buffer', self') ->
  served mod 4 = 0 -> n mod 4 = 0.
Proof.
  induction fuel as [|fuel IH]; intros sfuel self buffer served n err buffer' self' E Hal;
    [discriminate|].
  cbn [Shifter.Read_loop] in E.
  destruct (served <? len buffer).
  - bind_inv E. bind_inv E. destruct x0 as [[[k e] dst] self1].
    match goal with
    | P : singleRead _ _ _ = Done _ |- _ => apply singleRead_aligned in P
    end.
    destruct e.
    + injection E as <- _ _ _. apply aligned_add; assumption.
    + apply IH in E; [exact E|apply aligned_add; assumption].
  - injection E as <- _ _ _. exact Hal.
Qed.

(** C5. Whatever the float arithmetic, the source, the speed and the
    length of the destination buffer: a count returned by [Read], and
    a count returned by [singleRead], is a multiple of 4. *)
Theorem Read_count_aligned (fuel : nat) self buffer n err buffer' self' :
  (Shifter.Read fuel self buffer = Done (n, err, buffer', self') -> n mod 4 = 0) /\
  (singleRead fuel self buffer = Done (n, err, buffer', self') -> n mod 4 = 0).
Proof.
  split.
  - unfold Shifter.Read. intros E.
    bind_inv E. bind_inv E. destruct x0 as [[[k e] head] self1].
    injection E as <- _ _ _.
    match goal with
    | P : Shifter.Read_loop _ _ _ _ _ = Done _ |- _ =>
        apply Read_loop_aligned in P; [exact P|reflexivity]
    end.
  - apply singleRead_aligned.
Qed.

End ShifterAlignment.

(** A 43-byte buffer filled at speed 3/2 from a stream that delivers
    five bytes at a time: the count is 40. *)
Lemma fastShifter_run :
  (let! self := Example.fastShifter in
   let! (n, err, _, _) := Shifter.Read 100 self (repeat 0 43) in
   Done (n, err)) = Done (40, None).
Proof. vm_compute. reflexivity. Qed.

Lemma Read_count_aligned_witness :
  exists self buffer' self',
    Example.fastShifter = Done self /\
    Shifter.Read 100 self (repeat 0 43) = Done (40, None, buffer', self') /\
    40 mod 4 = 0.
Proof.
  pose proof fastShifter_run as E.
  apply bind_Done in E as (self & E0 & E).
  apply bind_Done in E as ([[[n err] buffer'] self'] & E1 & E).
  injection E as -> ->.
  exists self, buffer', self'. split; [exact E0|]. split; [exact E1|].
  exact (proj1 (Read_count_aligned 100 self (repeat 0 43) 40 None buffer' self') E1).
Defined.

Section ShifterReset.
Context {F : Type} `{Float64 F} {S : Type} `{Reader S} `{Shifter.MaybeSeeker S}.
Import Samples Window Shifter.
Implicit Types (self : SpeedShifter F S) (l r : circularWindow F).

Lemma GetSampleAsI16_Done (buffer : list byte) :
  4 <= len buffer -> exists a b, GetSampleAsI16 buffer = Done (a, b).
Proof.
  intros Hl.
  destruct buffer as [ | b0 [ | b1 [ | b2 [ | b3 rest ] ] ] ];
    try (unfold len in Hl; cbn in Hl; lia).
  unfold GetSampleAsI16.
  repeat (erewrite index_Done by (reflexivity || lia); cbn [bind]).
  eauto.
Qed.

Lemma bootstrapSample_Done (data : list byte) :
  exists sl sr : F, bootstrapSample data = Done (sl, sr).
Proof.
  unfold bootstrapSample, GetSampleAsF64.
  destruct (Z.eqb_spec (len data) 4) as [E|E]; [|eauto].
  destruct (GetSampleAsI16_Done (copy [0; 0; 0; 0] data)) as (a & b & ->); [|cbn; eauto].
  unfold copy, len in *. rewrite length_app, length_take, length_drop.
  change (length [0; 0; 0; 0]) with 4%nat. lia.
Qed.

Lemma pushBoth_inv n capl capr l r vl vr a b :
  1 <= n <= capl -> 1 <= n <= capr ->
  window_inv n capl l vl -> window_inv n capr r vr ->
  exists l' r',
    pushBoth l r a b = Done (l', r') /\
    window_inv n capl l' (vl ++ [a]) /\ window_inv n capr r' (vr ++ [b]).
Proof.
  intros Hl Hr Il Ir. unfold pushBoth.
  destruct (window_inv_Push n capl l vl a Hl Il) as (l' & -> & Il').
  destruct (window_inv_Push n capr r vr b Hr Ir) as (r' & -> & Ir').
  cbn [bind]. eauto.
Qed.

Lemma pushZeros_inv n capl capr (k : nat) : forall l r vl vr,
  1 <= n <= capl -> 1 <= n <= capr ->
  window_inv n capl l vl -> window_inv n capr r vr ->
  exists l' r',
    pushZeros k l r = Done (l', r') /\
    window_inv n capl l' (vl ++ repeat (f_of_int 0) k) /\
    window_inv n capr r' (vr ++ repeat (f_of_int 0) k).
Proof.
  induction k as [|k IH]; intros l r vl vr Hl Hr Il Ir.
  - exists l, r. cbn [pushZeros repeat]. rewrite !app_nil_r. auto.
  - cbn [pushZeros].
    destruct (pushBoth_inv n capl capr l r vl vr (f_of_int 0) (f_of_int 0) Hl Hr Il Ir)
      as (l1 & r1 & -> & Il1 & Ir1).
    cbn [bind].
    destruct (IH l1 r1 _ _ Hl Hr Il1 Ir1) as (l2 & r2 & E & Il2 & Ir2).
    exists l2, r2. rewrite E. cbn [repeat].
    rewrite !(cons_middle (f_of_int 0)), !app_assoc. auto.
Qed.

(** What the reset does, field by field. The windows are cleared and
    primed with [windowSize/2 - 1] zeros and the bootstrap sample, the
    two counters are zero, the source has been read once; [fracPos] is
    not touched. *)
Lemma internalReset_spec self :
  shifter_ok self ->
  exists self' sl sr,
    internalReset self = Done self' /\
    bootstrapSample (fst (fst (io_Read (source self) 4))) = Done (sl, sr) /\
    Get (leftWindow self') =
      Done (repeat (f_of_int 0) (Z.to_nat (Z.quot (windowSize self) 2 - 1)) ++ [sl]) /\
    Get (rightWindow self') =
      Done (repeat (f_of_int 0) (Z.to_nat (Z.quot (windowSize self) 2 - 1)) ++ [sr]) /\
    leftoverBytes self' = 0 /\
    lookaheadBytes self' = 0 /\
    fracPos self' = fracPos self /\
    source self' = snd (io_Read (source self) 4) /\
    speed self' = speed self /\
    windowSize self' = windowSize self /\
    shifter_ok self'.
Proof.
  intros (Hw & Hwl & Hwr & Hcl & Hcr).
  unfold internalReset.
  cbn [leftWindow rightWindow set_leftoverBytes set_lookaheadBytes windowSize source].
  change (len [0; 0; 0; 0]) with 4.
  set (k := Z.to_nat (Z.quot (windowSize self) 2 - 1)).
  pose proof (Z.quot_pos (windowSize self) 2 ltac:(lia) ltac:(lia)) as Hq0.
  assert (Z.quot (windowSize self) 2 <= windowSize self) as Hq
    by (apply Z.quot_le_upper_bound; lia).
  destruct (pushZeros_inv (windowSize self) (len (buffer (leftWindow self)))
              (len (buffer (rightWindow self))) k
              (Reset (leftWindow self)) (Reset (rightWindow self)) [] [])
    as (l1 & r1 & E1 & Il1 & Ir1); try lia.
  { rewrite <- Hwl. apply window_inv_Reset. apply len_nonneg. }
  { rewrite <- Hwr. apply window_inv_Reset. apply len_nonneg. }
  rewrite E1. cbn [bind app] in *.
  destruct (io_Read (source self) 4) as [[data rerr] src] eqn:R. cbn [fst snd].
  destruct (bootstrapSample_Done data) as (sl & sr & B).
  assert ((if len data =? 4
           then let! (left_, right_) := GetSampleAsF64 (copy [0; 0; 0; 0] data) in
                pushBoth l1 r1 left_ right_
           else pushBoth l1 r1 (f_of_int 0) (f_of_int 0))
          = pushBoth l1 r1 sl sr) as ->.
  { unfold bootstrapSample in B. destruct (len data =? 4).
    - rewrite B. reflexivity.
    - injection B as <- <-. reflexivity. }
  destruct (pushBoth_inv (windowSize self) (len (buffer (leftWindow self)))
              (len (buffer (rightWindow self))) l1 r1 _ _ sl sr
              ltac:(lia) ltac:(lia) Il1 Ir1)
    as (l2 & r2 & -> & Il2 & Ir2).
  cbn [bind].
  eexists _, sl, sr. split; [reflexivity|]. split; [exact B|].
  cbn [leftWindow rightWindow set_windows leftoverBytes lookaheadBytes fracPos
       source speed windowSize set_source].
  assert (forall s : F, last_n (windowSize self) (repeat (f_of_int 0) k ++ [s])
                        = repeat (f_of_int 0) k ++ [s]) as L.
  { intros s. unfold last_n. rewrite length_app, repeat_length. cbn [length].
    replace (k + 1 - Z.to_nat (windowSize self))%nat with 0%nat by (unfold k; lia).
    reflexivity. }
  rewrite (window_inv_Get _ _ _ _ Il2), (window_inv_Get _ _ _ _ Ir2), !L.
  repeat (split; [reflexivity|]).
  destruct Il2 as (Wl & Cl & _), Ir2 as (Wr & Cr & _).
  unfold shifter_ok.
  cbn [leftWindow rightWindow set_windows windowSize set_source
       set_lookaheadBytes set_leftoverBytes].
  rewrite Wl, Wr, Cl, Cr. auto.
Qed.

End ShifterReset.

Section ShifterSeek.
Context {F : Type} `{Float64 F} {S : Type} `{Reader S} `{Shifter.MaybeSeeker S}.
Import Samples Window Shifter.
Implicit Types (self : SpeedShifter F S).

(** Construction: the reset runs on a shifter whose [fracPos] is the
    zero value of float64. *)
Lemma NewSpeedShifter_spec (src : S) (speed0 : F) (ws : Z) interp :
  2 <= ws -> Z.rem ws 2 = 0 ->
  exists self sl sr,
    NewSpeedShifter src speed0 ws interp = Done self /\
    shifter_ok self /\
    bootstrapSample (fst (fst (io_Read src 4))) = Done (sl, sr) /\
    Get (leftWindow self) = Done (repeat (f_of_int 0) (Z.to_nat (Z.quot ws 2 - 1)) ++ [sl]) /\
    Get (rightWindow self) = Done (repeat (f_of_int 0) (Z.to_nat (Z.quot ws 2 - 1)) ++ [sr]) /\
    leftoverBytes self = 0 /\ lookaheadBytes self = 0 /\
    fracPos self = f_of_int 0 /\
    speed self = speed0 /\ windowSize self = ws.
Proof.
  intros Hws Heven. unfold NewSpeedShifter.
  destruct (Z.ltb_spec ws 2); [lia|]. rewrite Heven. cbn [Z.eqb negb].
  set (self0 := mkShifter _ _ _ _ _ _ _ _ _ _).
  assert (shifter_ok self0) as Hok.
  { unfold shifter_ok, self0; cbn. unfold len. rewrite repeat_length. lia. }
  destruct (internalReset_spec self0 Hok)
    as (self & sl & sr & E & B & Gl & Gr & Hlo & Hla & Hfp & _ & Hsp & Hw & Hok').
  exists self, sl, sr. rewrite E. auto 12.
Qed.

(** An absolute seek: the source seeks, then the reset runs on the
    source as the seek left it. *)
Lemma Seek_absolute self offset whence (seeker : Seeker S) :
  whence <> SeekCurrent -> as_Seeker = Some seeker -> shifter_ok self ->
  exists self' sl sr,
    Seek self offset whence =
      Done (fst (fst (seeker (source self) offset whence)),
            snd (fst (seeker (source self) offset whence)), self') /\
    bootstrapSample
      (fst (fst (io_Read (snd (seeker (source self) offset whence)) 4))) = Done (sl, sr) /\
    Get (leftWindow self') =
      Done (repeat (f_of_int 0) (Z.to_nat (Z.quot (windowSize self) 2 - 1)) ++ [sl]) /\
    Get (rightWindow self') =
      Done (repeat (f_of_int 0) (Z.to_nat (Z.quot (windowSize self) 2 - 1)) ++ [sr]) /\
    leftoverBytes self' = 0 /\ lookaheadBytes self' = 0 /\
    fracPos self' = fracPos self /\
    source self' = snd (io_Read (snd (seeker (source self) offset whence)) 4) /\
    shifter_ok self'.
Proof.
  intros Hw Hs Hok. unfold Seek.
  destruct (Z.eqb_spec whence SeekCurrent); [contradiction|].
  rewrite Hs.
  destruct (seeker (source self) offset whence) as [[position err] src]. cbn [fst snd].
  destruct (internalReset_spec (set_source self src) Hok)
    as (self' & sl & sr & E & B & Gl & Gr & Hlo & Hla & Hfp & Hsrc & _ & _ & Hok').
  exists self', sl, sr. rewrite E. cbn [bind]. cbn [source set_source] in *.
  auto 12.
Qed.

(** C3, as the code has it. A relative seek with a non-zero offset
    panics. A relative seek with offset 0 returns position 0 and no
    error and leaves the shifter, and so its source, as they were: the
    source's seek is not called. Any other seek calls the source's seek,
    resets the shifter and returns the position and the error of the
    source. *)
Theorem Seek_contract self offset whence :
  (whence = SeekCurrent -> offset <> 0 ->
     Seek self offset whence =
       Panic "can't use relative seeks on a SpeedShifter (due to lookaheads)") /\
  (whence = SeekCurrent -> offset = 0 ->
     Seek self offset whence = Done (0, None, self)) /\
  (whence <> SeekCurrent ->
     forall seeker : Seeker S, as_Seeker = Some seeker -> shifter_ok self ->
     exists self',
       Seek self offset whence =
         Done (fst (fst (seeker (source self) offset whence)),
               snd (fst (seeker (source self) offset whence)), self') /\
       internalReset (set_source self (snd (seeker (source self) offset whence)))
         = Done self').
Proof.
  split; [|split].
  - intros -> Hoff. unfold Seek. cbn [Z.eqb SeekCurrent Pos.eqb].
    destruct (Z.eqb_spec offset 0); [contradiction|reflexivity].
  - intros -> ->. reflexivity.
  - intros Hw seeker Hs Hok.
    destruct (Seek_absolute self offset whence seeker Hw Hs Hok) as (self' & _ & _ & E & _).
    exists self'. split; [exact E|].
    revert E. unfold Seek.
    destruct (Z.eqb_spec whence SeekCurrent); [contradiction|].
    rewrite Hs.
    destruct (seeker (source self) offset whence) as [[position err] src]. cbn [fst snd].
    destruct (internalReset (set_source self src)); cbn [bind]; intros E;
      try discriminate.
    injection E as ->. reflexivity.
Qed.

End ShifterSeek.

(** The half-speed shifter, right after its construction: the stream
    stands at 4, past the bootstrap sample. *)
Lemma halfSpeed_run :
  (let! self := Example.halfSpeed in
   let! (p, e, self') := Shifter.Seek self 0 SeekStart in
   Done (MemStream.ms_pos (Shifter.source self),
         fst (fst (io_Seek (Shifter.source self) 0 SeekCurrent)),
         p, e, MemStream.ms_pos (Shifter.source self'))) =
  Done (4, 4, 0, None, 4).
Proof. vm_compute. reflexivity. Qed.

Lemma halfSpeed_ok :
  exists self, Example.halfSpeed = Done self /\ Shifter.shifter_ok self.
Proof.
  destruct (NewSpeedShifter_spec (F := float64) (LoopSpec.mem Example.ramp 1000 0)
              (f_lit 1 2) 2 (fun samples x => Done (Interp.InterpLagrangeN samples x))
              ltac:(lia) eq_refl)
    as (self & _ & _ & E & Hok & _).
  exists self. split; [exact E|exact Hok].
Defined.

(** A seek to the start of the half-speed shifter. *)
Lemma Seek_contract_witness :
  exists self self',
    Example.halfSpeed = Done self /\
    Shifter.Seek self 0 SeekStart =
      Done (fst (fst (MemStream.Seek (Shifter.source self) 0 SeekStart)),
            snd (fst (MemStream.Seek (Shifter.source self) 0 SeekStart)), self') /\
    Shifter.internalReset
      (Shifter.set_source self (snd (MemStream.Seek (Shifter.source self) 0 SeekStart)))
      = Done self'.
Proof.
  destruct halfSpeed_ok as (self & E & Hok).
  destruct (proj2 (proj2 (Seek_contract self 0 SeekStart)) ltac:(discriminate)
              MemStream.Seek eq_refl Hok) as (self' & E1 & E2).
  exists self, self'. auto.
Defined.

(** Asked for the current position with [Seek(0, io.SeekCurrent)], the
    shifter answers 0 while its source, asked the same, answers 4. *)
Lemma Seek_current_zero_not_delegated :
  exists self,
    Example.halfSpeed = Done self /\
    Shifter.Seek self 0 SeekCurrent = Done (0, None, self) /\
    fst (fst (io_Seek (Shifter.source self) 0 SeekCurrent)) = 4.
Proof.
  pose proof halfSpeed_run as E.
  apply bind_Done in E as (self & E0 & E).
  apply bind_Done in E as ([[p e] self'] & E1 & E).
  injection E as _ E _ _ _.
  exists self. split; [exact E0|]. split; [reflexivity|exact E].
Qed.

(** The half-speed shifter after one [Read] of one sample, then a seek
    back to the start. *)
Lemma halfSpeed_played_run :
  (let! self := Example.halfSpeed_played in
   let! (p, e, self') := Shifter.Seek self 0 SeekStart in
   Done (Shifter.fracPos self, Shifter.leftoverBytes self, Shifter.lookaheadBytes self,
         p, e,
         Shifter.fracPos self', Shifter.leftoverBytes self', Shifter.lookaheadBytes self')) =
  Done (f_lit 1 2, 4, 4, 0, None, f_lit 1 2, 0, 0).
Proof. vm_compute. reflexivity. Qed.

(** C2, on the code. After one sample has been played at half speed
    [fracPos] is 1/2; a [Seek] to the start succeeds and clears both
    counters, but [fracPos] is still 1/2 afterwards: the reset never
    assigns it. *)
Theorem Seek_leaves_fracPos :
  exists self position err self',
    Example.halfSpeed_played = Done self /\
    Shifter.fracPos self = f_lit 1 2 /\
    Shifter.Seek self 0 SeekStart = Done (position, err, self') /\
    Shifter.leftoverBytes self' = 0 /\
    Shifter.lookaheadBytes self' = 0 /\
    Shifter.fracPos self' = f_lit 1 2 /\
    SFeqb (Shifter.fracPos self') (f_of_int 0) = false.
Proof.
  pose proof halfSpeed_played_run as E.
  apply bind_Done in E as (self & E0 & E).
  apply bind_Done in E as ([[p e] self'] & E1 & E).
  injection E as F0 _ _ _ _ F1 L1 A1.
  exists self, p, e, self'. rewrite F1. auto 10.
Qed.

(** * Further properties of the code *)

(** ** The looper: loop points, positions, seeks, end of stream *)

Section LooperMore.
Import Looper MemStream LoopSpec.

Lemma assertLoopValuesValidity_Done (s e : Z) :
  assertLoopValuesValidity s e = Done tt ->
  s mod 4 = 0 /\ e mod 4 = 0 /\ 0 <= s < e.
Proof.
  unfold assertLoopValuesValidity. rewrite !land3_mod4.
  destruct (Z.eqb_spec (s mod 4) 0); cbn [negb]; [|discriminate].
  destruct (Z.eqb_spec (e mod 4) 0); cbn [negb]; [|discriminate].
  destruct (Z.geb_spec s e); [discriminate|].
  destruct (Z.ltb_spec s 0); [discriminate|]. lia.
Qed.

Lemma assertLoopValuesValidity_Panic (s e : Z) :
  ~ (s mod 4 = 0 /\ e mod 4 = 0 /\ 0 <= s < e) ->
  exists msg, assertLoopValuesValidity s e = Panic msg.
Proof.
  intros Hn. unfold assertLoopValuesValidity. rewrite !land3_mod4.
  destruct (Z.eqb_spec (s mod 4) 0); cbn [negb]; [|eauto].
  destruct (Z.eqb_spec (e mod 4) 0); cbn [negb]; [|eauto].
  destruct (Z.geb_spec s e); [eauto|].
  destruct (Z.ltb_spec s 0); [eauto|]. exfalso. apply Hn. lia.
Qed.

(** [NewLooper] and [AdjustLoop] accept exactly the loop points that
    are multiples of 4 with [0 <= loopStart < loopEnd]. With such
    points [NewLooper] returns a looper at position 0 whose active end
    is the loop end; with any others both panic, with the same message,
    and [AdjustLoop] has not touched the looper. *)
Theorem loop_points_checked (S : Type) (stream0 : S) (self : Looper S) (s e : Z) :
  (s mod 4 = 0 /\ e mod 4 = 0 /\ 0 <= s < e ->
     NewLooper stream0 s e = Done (mkLooper stream0 0 s e e) /\
     exists self', AdjustLoop self s e = Done self') /\
  (~ (s mod 4 = 0 /\ e mod 4 = 0 /\ 0 <= s < e) ->
     exists msg, NewLooper stream0 s e = Panic msg /\ AdjustLoop self s e = Panic msg).
Proof.
  split.
  - intros (Hs & He & Hr). unfold NewLooper, AdjustLoop.
    rewrite (assertLoopValuesValidity_ok _ _ Hs He Hr). cbn [bind]. eauto.
  - intros Hn. destruct (assertLoopValuesValidity_Panic s e Hn) as (msg & E).
    exists msg. unfold NewLooper, AdjustLoop. rewrite E. auto.
Qed.



Lemma loop_end_range ls le p n :
  0 <= ls < le -> p <= le -> 0 <= n ->
  Z.min p ls <= loop_end ls le p n <= le.
Proof.
  intros Hl Hp Hn. unfold loop_end.
  destruct (Z.leb_spec (p + n) le); [lia|].
  pose proof (Z.mod_pos_bound (p + n - le - 1) (le - ls) ltac:(lia)). lia.
Qed.




(** A looper whose position is at or beyond its active end reads
    nothing there: the [Read] first seeks to [loopStart]. *)
Lemma Read_beyond_active_end data chunk ls le ae q buffer (fuel : nat) :
  1 <= chunk -> 0 <= ls < le -> le <= len data -> len data < 2 ^ 63 ->
  0 <= ae <= q -> q < 2 ^ 63 -> 0 < len buffer ->
  len buffer + 3 <= Z.of_nat fuel ->
  exists out,
    Looper.Read fuel (mkLooper (mem data chunk q) q ls ae le) buffer =
      Done (len buffer, None, out,
            at_pos data chunk ls le (loop_end ls le ls (len buffer))) /\
    len out = len buffer /\
    forall i, 0 <= i < len buffer ->
      out !! Z.to_nat i = data !! Z.to_nat (loop_pos ls le ls i).
Proof.
  intros Hc Hl Hle Hd Hq Hq' Hb Hf. unfold Looper.Read.
  destruct fuel as [|fuel]; [lia|].
  cbn [Read_loop].
  destruct (Z.gtb_spec (len buffer) 0); [|lia].
  cbn [activeLoopEnd position].
  replace (wrap64 (ae - q)) with (ae - q)
    by (unfold wrap64; rewrite Z.mod_small; lia).
  assert ((if ae - q <? 0 then 0 else ae - q) = 0) as ->
    by (destruct (Z.ltb_spec (ae - q) 0); lia).
  destruct (Z.leb_spec (len buffer) 0); [lia|].
  cbn [Z.gtb Z.compare bind position loopStart loopEnd activeLoopEnd stream
       set_activeLoopEnd set_position set_stream].
  rewrite mem_Seek_start by lia.
  unfold set_activeLoopEnd, set_position, set_stream.
  cbn [position loopStart loopEnd activeLoopEnd stream].
  rewrite Z.sub_0_r.
  destruct (Read_loop_mem data chunk ls le Hc Hl Hle Hd fuel (S fuel) ls (len buffer) [])
    as (seg & E & Hlen & Hseg); try lia.
  { destruct (ls =? le); lia. }
  unfold at_pos in E. rewrite E. cbn [bind app]. rewrite Hlen.
  assert (copy buffer seg = seg) as ->.
  { unfold copy. unfold len in Hlen. rewrite take_ge, drop_ge by lia.
    apply app_nil_r. }
  exists seg. auto.
Qed.

(** A seek beyond the loop end moves the position and leaves the active
    end [ae] as it was, whatever it was. What the next [Read] does
    depends on where the active end is. At or before the position
    sought (as it is when the active end is the loop end): nothing is
    read at the position sought, the [Read] starts over at [loopStart].
    Beyond the position sought (an active end that a deferred
    [AdjustLoop] left behind): the [Read] delivers the bytes from the
    position sought up to that active end, and then the loop. *)
Theorem Seek_past_loop_end_keeps_active_end data chunk ls le ae p q buffer (fuel : nat) :
  1 <= chunk -> 0 <= ls < le -> le <= len data -> len data < 2 ^ 63 ->
  0 <= ae -> le < q -> q < 2 ^ 63 -> 0 < len buffer ->
  len buffer + 3 <= Z.of_nat fuel ->
  let self1 := mkLooper (mem data chunk q) q ls ae le in
  Looper.Seek (mkLooper (mem data chunk p) p ls ae le) q SeekStart = (q, None, self1) /\
  (ae <= q ->
     exists out,
       Looper.Read fuel self1 buffer =
         Done (len buffer, None, out,
               at_pos data chunk ls le (loop_end ls le ls (len buffer))) /\
       forall i, 0 <= i < len buffer ->
         out !! Z.to_nat i = data !! Z.to_nat (loop_pos ls le ls i)) /\
  (q < ae -> ae <= len data -> ae - q < len buffer ->
     exists seg,
       Looper.Read fuel self1 buffer =
         Done (len buffer, None, bytes_at data q (ae - q) ++ seg,
               at_pos data chunk ls le (loop_end ls le ls (len buffer - (ae - q)))) /\
       len seg = len buffer - (ae - q) /\
       forall i, 0 <= i < len buffer - (ae - q) ->
         seg !! Z.to_nat i = data !! Z.to_nat (loop_pos ls le ls i)).
Proof.
  intros Hc Hl Hle Hd Hae Hq Hq' Hb Hf self1.
  split; [|split].
  - unfold Looper.Seek. cbn [stream].
    rewrite mem_Seek_start by lia.
    unfold set_activeLoopEnd, set_position, set_stream.
    cbn [position loopStart loopEnd activeLoopEnd stream].
    destruct (Z.leb_spec q le); [lia|]. reflexivity.
  - intros Hle'.
    destruct (Read_beyond_active_end data chunk ls le ae q buffer fuel)
      as (out & E & _ & Hout); try assumption; try lia.
    exists out. split; assumption.
  - intros Hlt Hlen Hbuf.
    exact (Read_pending_end data chunk ls le Hc Hl Hle Hd fuel q ae buffer
             ltac:(lia) Hlen Hbuf Hf).
Qed.

(** A seek to a position up to the loop end makes the loop end the
    active end again, whatever the active end was: after a deferred
    [AdjustLoop] the new loop takes effect at once, and the next [Read]
    goes from the position sought round the loop. *)
Theorem Seek_inside_loop_rearms data chunk ls le ae p q buffer (fuel : nat) :
  1 <= chunk -> 0 <= ls < le -> le <= len data -> len data < 2 ^ 63 ->
  0 <= q <= le -> len buffer + 2 <= Z.of_nat fuel ->
  exists out,
    Looper.Seek (mkLooper (mem data chunk p) p ls ae le) q SeekStart =
      (q, None, at_pos data chunk ls le q) /\
    Looper.Read fuel (at_pos data chunk ls le q) buffer =
      Done (len buffer, None, out,
            at_pos data chunk ls le (loop_end ls le q (len buffer))) /\
    forall i, 0 <= i < len buffer ->
      out !! Z.to_nat i = data !! Z.to_nat (loop_pos ls le q i).
Proof.
  intros Hc Hl Hle Hd Hq Hf.
  destruct (Read_mem data chunk ls le Hc Hl Hle Hd fuel q buffer Hq Hf)
    as (out & E & _ & Hout).
  exists out. split; [|split; assumption].
  unfold Looper.Seek. cbn [stream].
  rewrite mem_Seek_start by lia.
  unfold set_activeLoopEnd, set_position, set_stream.
  cbn [position loopStart loopEnd activeLoopEnd stream].
  destruct (Z.leb_spec q le); [|lia]. reflexivity.
Qed.

Lemma mem_Read_short data chunk pos n :
  1 <= chunk -> 0 <= pos < len data -> 0 < n ->
  io_Read (mem data chunk pos) n =
    (bytes_at data pos (Z.min (Z.min n chunk) (len data - pos)), None,
     mem data chunk (pos + Z.min (Z.min n chunk) (len data - pos))).
Proof.
  intros Hc Hp Hn. unfold io_Read, memStream_Reader, Read, mem. cbn.
  destruct (Z.geb_spec pos (len data)); [lia|].
  assert (take (Z.to_nat (Z.min n chunk)) (drop (Z.to_nat pos) data) =
          bytes_at data pos (Z.min (Z.min n chunk) (len data - pos))) as ->.
  { unfold bytes_at.
    destruct (Z.le_ge_cases (Z.min n chunk) (len data - pos)).
    - rewrite (Z.min_l _ _ H0). reflexivity.
    - rewrite (Z.min_r _ _ H0).
      rewrite !take_ge; [reflexivity | |]; rewrite length_drop; unfold len in *; lia. }
  rewrite len_bytes_at by lia. reflexivity.
Qed.

Lemma mem_Read_eof data chunk pos n :
  len data <= pos -> io_Read (mem data chunk pos) n = ([], Some EOF, mem data chunk pos).
Proof.
  intros Hp. unfold io_Read, memStream_Reader, Read, mem. cbn.
  destruct (Z.geb_spec pos (len data)); [reflexivity|lia].
Qed.

(** [readAll] keeps reading until the stream is exhausted. *)
Lemma readAll_loop_eof data chunk (fuel : nat) : forall pos want acc,
  1 <= chunk -> 0 <= pos <= len data -> len data - pos < want ->
  len data - pos + 1 <= Z.of_nat fuel ->
  readAll_loop fuel (mem data chunk pos) want acc =
    Done (acc ++ bytes_at data pos (len data - pos), Some EOF,
          mem data chunk (len data)).
Proof.
  induction fuel as [|fuel IH]; intros pos want acc Hc Hp Hw Hf; [lia|].
  cbn [readAll_loop].
  destruct (Z.eq_dec pos (len data)) as [->|Hne].
  - rewrite mem_Read_eof by lia. change (len []) with 0.
    destruct (Z.eqb_spec 0 want); [lia|]. cbn [orb].
    rewrite bool_decide_eq_true_2 by discriminate.
    rewrite Z.sub_diag. reflexivity.
  - rewrite mem_Read_short by lia.
    set (k := Z.min (Z.min want chunk) (len data - pos)).
    assert (1 <= k <= len data - pos) as Hk by (unfold k; lia).
    rewrite len_bytes_at by lia.
    destruct (Z.eqb_spec k want); [lia|]. cbn [orb].
    rewrite bool_decide_eq_false_2 by (intros X; apply X; reflexivity).
    destruct (Z.leb_spec k want); [|lia].
    rewrite IH by lia. rewrite <- app_assoc, bytes_at_app by lia.
    replace (k + (len data - (pos + k))) with (len data - pos) by lia.
    reflexivity.
Qed.

(** A loop end beyond the end of the stream is never reached: a [Read]
    that asks for more than the stream has left returns what is left
    together with [io.EOF], leaves the rest of the buffer as it was and
    does not go back to [loopStart]. *)
Theorem Read_reaches_EOF data chunk ls le p buffer (fuel : nat) :
  1 <= chunk -> 0 <= ls < le -> len data < le -> le < 2 ^ 63 ->
  0 <= p <= len data -> len data - p < len buffer ->
  len data - p + 2 <= Z.of_nat fuel ->
  Looper.Read fuel (at_pos data chunk ls le p) buffer =
    Done (len data - p, Some EOF,
          bytes_at data p (len data - p) ++ drop (Z.to_nat (len data - p)) buffer,
          at_pos data chunk ls le (len data)).
Proof.
  intros Hc Hl Hle Hd Hp Hb Hf. unfold Looper.Read.
  destruct fuel as [|fuel]; [lia|].
  cbn [Read_loop].
  destruct (Z.gtb_spec (len buffer) 0); [|lia].
  change (activeLoopEnd (at_pos data chunk ls le p)) with le.
  change (position (at_pos data chunk ls le p)) with p.
  replace (wrap64 (le - p)) with (le - p)
    by (unfold wrap64; rewrite Z.mod_small; lia).
  destruct (Z.ltb_spec (le - p) 0); [lia|].
  assert (forall want, len data - p < want ->
            readAll (S fuel) (at_pos data chunk ls le p) want =
              Done (bytes_at data p (len data - p), Some EOF,
                    at_pos data chunk ls le (len data))) as RA.
  { intros want Hw. unfold readAll, at_pos. cbn [stream position].
    rewrite readAll_loop_eof by lia. cbn [bind app].
    rewrite len_bytes_at by lia.
    unfold set_position, set_stream. cbn [stream position loopStart activeLoopEnd loopEnd].
    replace (wrap64 (p + (len data - p))) with (len data); [reflexivity|].
    unfold wrap64. rewrite Z.mod_small; lia. }
  assert (len (bytes_at data p (len data - p)) = len data - p) as Hlen
    by (apply len_bytes_at; lia).
  assert (copy buffer (bytes_at data p (len data - p)) =
          bytes_at data p (len data - p) ++ drop (Z.to_nat (len data - p)) buffer) as Hcopy.
  { unfold copy. unfold len in *. rewrite take_ge by lia.
    do 2 f_equal. lia. }
  destruct (Z.leb_spec (len buffer) (le - p)).
  - rewrite RA by lia. cbn [bind app]. rewrite Hlen, Hcopy. reflexivity.
  - destruct (Z.gtb_spec (le - p) 0); [|lia].
    rewrite RA by lia. cbn [bind app]. rewrite Hlen, Hcopy. reflexivity.
Qed.

(** Over a [bytes.Reader], [Length] is not the length of the stream
    but what is left to read of it: it is [len(data)] minus the position
    before a [Read], and again after it. *)
Theorem Length_is_what_is_unread data chunk ls le p buffer (fuel : nat) :
  1 <= chunk -> 0 <= ls < le -> le <= len data -> len data < 2 ^ 63 ->
  0 <= p <= le -> len buffer + 2 <= Z.of_nat fuel ->
  exists out self',
    Length (at_pos data chunk ls le p) = Done (len data - p) /\
    Looper.Read fuel (at_pos data chunk ls le p) buffer =
      Done (len buffer, None, out, self') /\
    Length self' = Done (len data - GetPosition self').
Proof.
  intros Hc Hl Hle Hd Hp Hf.
  destruct (Read_mem data chunk ls le Hc Hl Hle Hd fuel p buffer Hp Hf)
    as (out & E & _ & _).
  assert (forall x, 0 <= x <= le ->
            Length (at_pos data chunk ls le x) = Done (len data - x)) as L.
  { intros x Hx. unfold Length, stream_kind, memStream_Typed, Len, at_pos, mem.
    cbn [stream ms_pos ms_data].
    destruct (Z.geb_spec x (len data)); f_equal; lia. }
  exists out, (at_pos data chunk ls le (loop_end ls le p (len buffer))).
  split; [apply L; lia|]. split; [exact E|].
  unfold GetPosition. cbn [position at_pos]. apply L.
  pose proof (loop_end_range ls le p (len buffer) Hl ltac:(lia) (len_nonneg _)). lia.
Qed.

(** A failed seek (a negative position) still overwrites the position
    of the looper, with the 0 that the stream returns beside its error,
    although the stream has not moved: the next [Read] counts its bytes
    from 0 but delivers them from where the stream stands. *)
Theorem Seek_error_overwrites_position data chunk ls le p q buffer (fuel : nat) :
  1 <= chunk -> 0 <= ls < le -> le < 2 ^ 63 -> len data < 2 ^ 63 ->
  0 <= p -> q < 0 ->
  0 < len buffer <= le -> p + len buffer <= len data ->
  len buffer + 1 <= Z.of_nat fuel ->
  exists e self1,
    Looper.Seek (at_pos data chunk ls le p) q SeekStart = (0, Some e, self1) /\
    GetPosition self1 = 0 /\
    stream self1 = mem data chunk p /\
    Looper.Read fuel self1 buffer =
      Done (len buffer, None, bytes_at data p (len buffer),
            mkLooper (mem data chunk (p + len buffer)) (len buffer) ls le le).
Proof.
  intros Hc Hl Hle Hd Hp Hq Hb Hpb Hf.
  exists (Err 2), (mkLooper (mem data chunk p) 0 ls le le).
  split; [|split; [reflexivity|split; [reflexivity|]]].
  - unfold Looper.Seek, at_pos, io_Seek, memStream_Seeker, Seek, mem.
    cbn [stream ms_pos ms_data ms_chunk].
    change (SeekStart =? SeekStart) with true. cbn [orb].
    destruct (Z.ltb_spec q 0); [|lia].
    unfold set_activeLoopEnd, set_position, set_stream.
    cbn [position loopStart loopEnd activeLoopEnd stream].
    destruct (Z.leb_spec 0 le); [|lia]. reflexivity.
  - unfold Looper.Read.
    destruct fuel as [|fuel]; [lia|].
    cbn [Read_loop].
    destruct (Z.gtb_spec (len buffer) 0); [|lia].
    cbn [activeLoopEnd position].
    replace (wrap64 (le - 0)) with le
      by (unfold wrap64; rewrite Z.mod_small; lia).
    destruct (Z.ltb_spec le 0); [lia|].
    destruct (Z.leb_spec (len buffer) le); [|lia].
    unfold readAll. cbn [stream position].
    rewrite readAll_loop_mem by lia. cbn [bind app].
    rewrite len_bytes_at by lia.
    unfold set_position, set_stream. cbn [stream position loopStart activeLoopEnd loopEnd].
    replace (wrap64 (0 + len buffer)) with (len buffer)
      by (unfold wrap64; rewrite Z.mod_small; lia).
    assert (copy buffer (bytes_at data p (len buffer)) = bytes_at data p (len buffer)) as ->.
    { pose proof (len_bytes_at data p (len buffer) Hp ltac:(lia) Hpb) as L.
      unfold copy. unfold len in *. rewrite take_ge, drop_ge by lia.
      apply app_nil_r. }
    reflexivity.
Qed.

End LooperMore.

(** Closing a side condition on concrete data. *)
Ltac by_eval :=
  first [ reflexivity | lia | discriminate | unfold len; simpl; lia ].

(** The loop [0, 8) is accepted; a loop starting at 2 is not. *)
Lemma loop_points_checked_witness :
  let stream0 := MemStream.mkMem (repeat 0 32) 0 32 in
  let self := Looper.mkLooper stream0 0 0 16 16 in
  (Looper.NewLooper stream0 0 8 = Done (Looper.mkLooper stream0 0 0 8 8) /\
   exists self', Looper.AdjustLoop self 0 8 = Done self') /\
  (exists msg, Looper.NewLooper stream0 2 8 = Panic msg /\
               Looper.AdjustLoop self 2 8 = Panic msg).
Proof.
  intros stream0 self. split.
  - apply (proj1 (loop_points_checked _ stream0 self 0 8)).
    repeat split; by_eval.
  - apply (proj2 (loop_points_checked _ stream0 self 2 8)).
    intros (H & _). discriminate H.
Defined.



(** A seek to 24, beyond the loop [8, 16): the next bytes are those of
    the loop from 8 on. The same seek to 12 after [AdjustLoop(0, 8)]
    was deferred at position 10 with active end 16: the next bytes are
    bytes 12 to 15, then those of the loop from 0 on. *)
Lemma Seek_past_loop_end_keeps_active_end_witness :
  let data := map Z.of_nat (seq 0 32) in
  (exists out,
     Looper.Seek (LoopSpec.at_pos data 5 8 16 12) 24 SeekStart =
       (24, None, Looper.mkLooper (LoopSpec.mem data 5 24) 24 8 16 16) /\
     Looper.Read 15 (Looper.mkLooper (LoopSpec.mem data 5 24) 24 8 16 16) (repeat 0 12) =
       Done (12, None, out, LoopSpec.at_pos data 5 8 16 12) /\
     forall i, 0 <= i < 12 ->
       out !! Z.to_nat i = data !! Z.to_nat (LoopSpec.loop_pos 8 16 8 i)) /\
  (exists seg,
     Looper.Seek (Looper.mkLooper (LoopSpec.mem data 5 10) 10 0 16 8) 12 SeekStart =
       (12, None, Looper.mkLooper (LoopSpec.mem data 5 12) 12 0 16 8) /\
     Looper.Read 15 (Looper.mkLooper (LoopSpec.mem data 5 12) 12 0 16 8) (repeat 0 12) =
       Done (12, None, [12; 13; 14; 15] ++ seg, LoopSpec.at_pos data 5 0 8 8) /\
     len seg = 8 /\
     forall i, 0 <= i < 8 ->
       seg !! Z.to_nat i = data !! Z.to_nat (LoopSpec.loop_pos 0 8 0 i)).
Proof.
  intros data. split.
  - destruct (Seek_past_loop_end_keeps_active_end data 5 8 16 16 12 24 (repeat 0 12) 15%nat)
      as (E & R & _); try by_eval.
    destruct (R ltac:(lia)) as (out & E1 & Hout).
    exists out. split; [exact E|]. split; [exact E1|exact Hout].
  - destruct (Seek_past_loop_end_keeps_active_end data 5 0 8 16 10 12 (repeat 0 12) 15%nat)
      as (E & _ & R); try by_eval.
    destruct R as (seg & E1 & Hl & Hseg); try by_eval.
    exists seg. split; [exact E|]. split; [exact E1|]. split; [exact Hl|exact Hseg].
Defined.

(** Position 10 on the way to the old end 16 of a loop that is now
    [0, 8): a seek to 4 puts the looper in the new loop. *)
Lemma Seek_inside_loop_rearms_witness :
  let data := map Z.of_nat (seq 0 32) in
  exists out,
    Looper.Seek (Looper.mkLooper (LoopSpec.mem data 5 10) 10 0 16 8) 4 SeekStart =
      (4, None, LoopSpec.at_pos data 5 0 8 4) /\
    Looper.Read 14 (LoopSpec.at_pos data 5 0 8 4) (repeat 0 12) =
      Done (len (repeat 0 12), None, out,
            LoopSpec.at_pos data 5 0 8 (LoopSpec.loop_end 0 8 4 (len (repeat 0 12)))) /\
    forall i, 0 <= i < len (repeat 0 12) ->
      out !! Z.to_nat i = data !! Z.to_nat (LoopSpec.loop_pos 0 8 4 i).
Proof.
  intros data.
  apply (Seek_inside_loop_rearms data 5 0 8 16 10 4 (repeat 0 12) 14%nat); by_eval.
Defined.

(** A loop [0, 40) over a stream of 32 bytes, read from 24 on into a
    buffer of 12 bytes: 8 bytes and [io.EOF]. *)
Lemma Read_reaches_EOF_witness :
  let data := map Z.of_nat (seq 0 32) in
  Looper.Read 10 (LoopSpec.at_pos data 5 0 40 24) (repeat 7 12) =
    Done (len data - 24, Some EOF,
          LoopSpec.bytes_at data 24 (len data - 24)
            ++ drop (Z.to_nat (len data - 24)) (repeat 7 12),
          LoopSpec.at_pos data 5 0 40 (len data)).
Proof.
  intros data.
  apply (Read_reaches_EOF data 5 0 40 24 (repeat 7 12) 10%nat); by_eval.
Defined.

Lemma Length_is_what_is_unread_witness :
  let data := map Z.of_nat (seq 0 32) in
  exists out self',
    Looper.Length (LoopSpec.at_pos data 5 0 32 0) = Done (len data - 0) /\
    Looper.Read 14 (LoopSpec.at_pos data 5 0 32 0) (repeat 0 12) =
      Done (len (repeat 0 12), None, out, self') /\
    Looper.Length self' = Done (len data - Looper.GetPosition self').
Proof.
  intros data.
  apply (Length_is_what_is_unread data 5 0 32 0 (repeat 0 12) 14%nat); by_eval.
Defined.

(** The stream stands at 12; a seek to -4 fails, the position of the
    looper becomes 0 and the next 8 bytes are bytes 12 to 19. *)
Lemma Seek_error_overwrites_position_witness :
  let data := map Z.of_nat (seq 0 32) in
  exists e self1,
    Looper.Seek (LoopSpec.at_pos data 5 0 16 12) (-4) SeekStart = (0, Some e, self1) /\
    Looper.GetPosition self1 = 0 /\
    Looper.stream self1 = LoopSpec.mem data 5 12 /\
    Looper.Read 9 self1 (repeat 0 8) =
      Done (len (repeat 0 8), None, LoopSpec.bytes_at data 12 (len (repeat 0 8)),
            Looper.mkLooper (LoopSpec.mem data 5 (12 + len (repeat 0 8)))
                            (len (repeat 0 8)) 0 16 16).
Proof.
  intros data.
  apply (Seek_error_overwrites_position data 5 0 16 12 (-4) (repeat 0 8) 9%nat); by_eval.
Defined.

(** ** The interpolators: agreement, polynomials, symmetry, short windows *)

Section InterpMore.
Import Interp InterpSpec.
Local Open Scope Q_scope.








End InterpMore.

Section InterpBounds.
Context {F : Type} `{Float64 F}.
Import Interp.

Ltac short_window samples H :=
  destruct samples as [ | s0 [ | s1 [ | s2 [ | s3 [ | s4 [ | s5 rest ] ] ] ] ] ];
  try (unfold len in H; cbn in H; lia).

(** The fixed kernels index their window without a check: on a window
    shorter than their number of points they panic, on a longer one
    they return and look only at its first 4 (or 6) samples.
    [InterpLagrangeN] takes a window of any length; on the empty one
    its result is 0. *)
Theorem kernels_and_window_length (samples : list F) (x : F) :
  (len samples < 4 ->
     InterpLagrange4Pt3Ord samples x = Panic "index out of range" /\
     InterpHermite4Pt3Ord samples x = Panic "index out of range") /\
  (len samples < 6 ->
     InterpLagrange6Pt5Ord samples x = Panic "index out of range" /\
     InterpHermite6Pt3Ord samples x = Panic "index out of range") /\
  (4 <= len samples ->
     exists y z,
       InterpLagrange4Pt3Ord samples x = Done y /\
       InterpLagrange4Pt3Ord (take 4 samples) x = Done y /\
       InterpHermite4Pt3Ord samples x = Done z /\
       InterpHermite4Pt3Ord (take 4 samples) x = Done z) /\
  (6 <= len samples ->
     exists y z,
       InterpLagrange6Pt5Ord samples x = Done y /\
       InterpLagrange6Pt5Ord (take 6 samples) x = Done y /\
       InterpHermite6Pt3Ord samples x = Done z /\
       InterpHermite6Pt3Ord (take 6 samples) x = Done z) /\
  InterpLagrangeN [] x = f_of_int 0.
Proof.
  split; [|split; [|split; [|split]]].
  - intros Hl. short_window samples Hl; split; reflexivity.
  - intros Hl. short_window samples Hl; split; reflexivity.
  - intros Hl. short_window samples Hl; eexists _, _; cbn [take];
      unfold InterpLagrange4Pt3Ord, InterpHermite4Pt3Ord;
      repeat (erewrite index_Done by (reflexivity || lia); cbn [bind]);
      repeat split; reflexivity.
  - intros Hl. short_window samples Hl; eexists _, _; cbn [take];
      unfold InterpLagrange6Pt5Ord, InterpHermite6Pt3Ord;
      repeat (erewrite index_Done by (reflexivity || lia); cbn [bind]);
      repeat split; reflexivity.
  - reflexivity.
Qed.

End InterpBounds.

(** A window of three samples is too short for the 4-point kernels, a
    window of seven is long enough for the 6-point ones. *)
Lemma kernels_and_window_length_witness :
  (Interp.InterpLagrange4Pt3Ord [1; 2; 3]%Q 1%Q = Panic "index out of range" /\
   Interp.InterpHermite4Pt3Ord [1; 2; 3]%Q 1%Q = Panic "index out of range") /\
  (exists y z,
     Interp.InterpLagrange6Pt5Ord [1; 2; 3; 4; 5; 6; 7]%Q 2%Q = Done y /\
     Interp.InterpLagrange6Pt5Ord (take 6 [1; 2; 3; 4; 5; 6; 7]%Q) 2%Q = Done y /\
     Interp.InterpHermite6Pt3Ord [1; 2; 3; 4; 5; 6; 7]%Q 2%Q = Done z /\
     Interp.InterpHermite6Pt3Ord (take 6 [1; 2; 3; 4; 5; 6; 7]%Q) 2%Q = Done z).
Proof.
  split.
  - apply (proj1 (kernels_and_window_length [1; 2; 3]%Q 1%Q)). by_eval.
  - apply (proj1 (proj2 (proj2 (proj2
             (kernels_and_window_length [1; 2; 3; 4; 5; 6; 7]%Q 2%Q))))). by_eval.
Defined.


(** ** The sample codec: decoding, short buffers, re-encoding *)

Section SampleMore.
Import Samples.

(** One channel: the little-endian pair of bytes as a signed 16-bit
    number. *)
Lemma channel_decode b0 b1 :
  0 <= b0 < 256 -> 0 <= b1 < 256 ->
  Z.lor (wrap16 (Z.shiftl b1 8)) b0 = wrap16 (b0 + 256 * b1).
Proof.
  intros H0 H1. rewrite Z.shiftl_mul_pow2 by lia.
  destruct (Z.lt_ge_cases b1 128).
  - assert (wrap16 (b1 * 2 ^ 8) = b1 * 2 ^ 8) as ->
      by (unfold wrap16; rewrite Z.mod_small; lia).
    assert (wrap16 (b0 + 256 * b1) = b0 + 256 * b1) as ->
      by (unfold wrap16; rewrite Z.mod_small; lia).
    pose proof (Z.add_lor_land (b1 * 2 ^ 8) b0) as E.
    rewrite land_high_low in E by lia. lia.
  - assert (wrap16 (b1 * 2 ^ 8) = (b1 - 256) * 2 ^ 8) as ->.
    { unfold wrap16.
      rewrite <- (Z.mod_unique (b1 * 2 ^ 8 + 2 ^ 15) (2 ^ 16) 1 (b1 * 2 ^ 8 - 2 ^ 15))
        by lia.
      lia. }
    assert (wrap16 (b0 + 256 * b1) = b0 + 256 * b1 - 2 ^ 16) as ->.
    { unfold wrap16.
      rewrite <- (Z.mod_unique (b0 + 256 * b1 + 2 ^ 15) (2 ^ 16) 1
                    (b0 + 256 * b1 - 2 ^ 15)) by lia.
      lia. }
    pose proof (Z.add_lor_land ((b1 - 256) * 2 ^ 8) b0) as E.
    rewrite land_high_low in E by lia. lia.
Qed.

Lemma wrap16_range z : - 2 ^ 15 <= wrap16 z < 2 ^ 15.
Proof.
  unfold wrap16. pose proof (Z.mod_pos_bound (z + 2 ^ 15) (2 ^ 16) ltac:(lia)). lia.
Qed.

(** One channel: the two bytes that [StoreL16Sample] writes for the
    number that [GetSampleAsI16] read are the two bytes read. *)
Lemma channel_reencode b0 b1 :
  0 <= b0 < 256 -> 0 <= b1 < 256 ->
  wrap8u (wrap16 (b0 + 256 * b1)) = b0 /\
  wrap8u (Z.shiftr (wrap16 (b0 + 256 * b1)) 8) = b1.
Proof.
  intros H0 H1. unfold wrap8u. rewrite Z.shiftr_div_pow2 by lia.
  assert (exists k, wrap16 (b0 + 256 * b1) = b0 + 256 * (b1 - 256 * k)) as (k & ->).
  { unfold wrap16. destruct (Z.lt_ge_cases b1 128).
    - exists 0. rewrite Z.mod_small by lia. lia.
    - exists 1.
      rewrite <- (Z.mod_unique (b0 + 256 * b1 + 2 ^ 15) (2 ^ 16) 1
                    (b0 + 256 * b1 - 2 ^ 15)) by lia.
      lia. }
  assert ((b0 + 256 * (b1 - 256 * k)) / 2 ^ 8 = b1 - 256 * k) as ->.
  { symmetry. apply (Z.div_unique _ _ _ b0); lia. }
  split.
  - symmetry. apply (Z.mod_unique _ _ (b1 - 256 * k)); lia.
  - symmetry. apply (Z.mod_unique _ _ (- k)); lia.
Qed.

Ltac first_bytes buffer H :=
  destruct buffer as [ | c0 [ | c1 [ | c2 [ | c3 rest' ] ] ] ];
  try (unfold len in H; cbn in H; lia).

Lemma GetSampleAsI16_value (b0 b1 b2 b3 : byte) (rest : list byte) :
  0 <= b0 < 256 -> 0 <= b1 < 256 -> 0 <= b2 < 256 -> 0 <= b3 < 256 ->
  GetSampleAsI16 (b0 :: b1 :: b2 :: b3 :: rest) =
    Done (wrap16 (b0 + 256 * b1), wrap16 (b2 + 256 * b3)).
Proof.
  intros H0 H1 H2 H3. unfold GetSampleAsI16.
  repeat (erewrite index_Done by (reflexivity || lia); cbn [bind]).
  rewrite !channel_decode by assumption. reflexivity.
Qed.

Lemma StoreL16Sample_recode (b0 b1 b2 b3 : byte) (buf : list byte) :
  0 <= b0 < 256 -> 0 <= b1 < 256 -> 0 <= b2 < 256 -> 0 <= b3 < 256 ->
  4 <= len buf ->
  StoreL16Sample buf (wrap16 (b0 + 256 * b1)) (wrap16 (b2 + 256 * b3)) =
    Done (b0 :: b1 :: b2 :: b3 :: drop 4 buf).
Proof.
  intros H0 H1 H2 H3 Hb.
  destruct (channel_reencode b0 b1 H0 H1) as (L0 & L1).
  destruct (channel_reencode b2 b3 H2 H3) as (R0 & R1).
  unfold StoreL16Sample.
  rewrite store_Done by lia. cbn [bind].
  rewrite store_Done by (rewrite len_insert; lia). cbn [bind].
  rewrite store_Done by (rewrite !len_insert; lia). cbn [bind].
  rewrite store_Done by (rewrite !len_insert; lia). cbn [bind].
  rewrite L0, L1, R0, R1.
  first_bytes buf Hb. reflexivity.
Qed.

(** [GetSampleAsI16] reads the first four bytes as two little-endian
    two's-complement numbers, left channel first, and nothing after
    them; both results are in the int16 range. On a buffer of fewer
    than four bytes [GetSampleAsI16] and [StoreL16Sample] panic. *)
Theorem GetSampleAsI16_decodes (b0 b1 b2 b3 : byte) (rest buffer : list byte) (l r : Z) :
  (0 <= b0 < 256 -> 0 <= b1 < 256 -> 0 <= b2 < 256 -> 0 <= b3 < 256 ->
     GetSampleAsI16 (b0 :: b1 :: b2 :: b3 :: rest) =
       Done (wrap16 (b0 + 256 * b1), wrap16 (b2 + 256 * b3)) /\
     - 2 ^ 15 <= wrap16 (b0 + 256 * b1) < 2 ^ 15 /\
     - 2 ^ 15 <= wrap16 (b2 + 256 * b3) < 2 ^ 15) /\
  (len buffer < 4 ->
     GetSampleAsI16 buffer = Panic "index out of range" /\
     StoreL16Sample buffer l r = Panic "index out of range").
Proof.
  split.
  - intros H0 H1 H2 H3. rewrite GetSampleAsI16_value by assumption.
    auto using wrap16_range.
  - intros Hl. first_bytes buffer Hl; split; reflexivity.
Qed.

(** Decoding a sample and encoding the result gives the four bytes
    back, in any buffer that can take them: the sample goes into its
    first four bytes and the rest of the buffer stays. *)
Theorem Get_Store_roundtrip (b0 b1 b2 b3 : byte) (rest dst : list byte) :
  0 <= b0 < 256 -> 0 <= b1 < 256 -> 0 <= b2 < 256 -> 0 <= b3 < 256 ->
  4 <= len dst ->
  exists l r,
    GetSampleAsI16 (b0 :: b1 :: b2 :: b3 :: rest) = Done (l, r) /\
    StoreL16Sample dst l r = Done (b0 :: b1 :: b2 :: b3 :: drop 4 dst) /\
    StoreL16Sample (b0 :: b1 :: b2 :: b3 :: rest) l r =
      Done (b0 :: b1 :: b2 :: b3 :: rest).
Proof.
  intros H0 H1 H2 H3 Hd.
  exists (wrap16 (b0 + 256 * b1)), (wrap16 (b2 + 256 * b3)).
  split; [apply GetSampleAsI16_value; assumption|].
  split; [apply StoreL16Sample_recode; assumption|].
  apply (StoreL16Sample_recode b0 b1 b2 b3 (b0 :: b1 :: b2 :: b3 :: rest));
    try assumption.
  unfold len. cbn [length]. lia.
Qed.

End SampleMore.

(** The sample [00 80 ff 7f]: the channels are -32768 and 32767. *)
Lemma GetSampleAsI16_decodes_witness :
  (Samples.GetSampleAsI16 [0; 128; 255; 127; 9] =
     Done (wrap16 (0 + 256 * 128), wrap16 (255 + 256 * 127)) /\
   - 2 ^ 15 <= wrap16 (0 + 256 * 128) < 2 ^ 15 /\
   - 2 ^ 15 <= wrap16 (255 + 256 * 127) < 2 ^ 15) /\
  (Samples.GetSampleAsI16 [1; 2; 3] = Panic "index out of range" /\
   Samples.StoreL16Sample [1; 2; 3] 5 6 = Panic "index out of range").
Proof.
  split.
  - apply (proj1 (GetSampleAsI16_decodes 0 128 255 127 [9] [] 0 0)); lia.
  - apply (proj2 (GetSampleAsI16_decodes 0 0 0 0 [] [1; 2; 3] 5 6)). by_eval.
Defined.

Lemma Get_Store_roundtrip_witness :
  exists l r,
    Samples.GetSampleAsI16 [0; 128; 255; 127; 9] = Done (l, r) /\
    Samples.StoreL16Sample [1; 2; 3; 4; 5; 6] l r =
      Done (0 :: 128 :: 255 :: 127 :: drop 4 [1; 2; 3; 4; 5; 6]) /\
    Samples.StoreL16Sample [0; 128; 255; 127; 9] l r = Done [0; 128; 255; 127; 9].
Proof.
  apply (Get_Store_roundtrip 0 128 255 127 [9] [1; 2; 3; 4; 5; 6]); by_eval.
Defined.

(** ** The speed shifter: construction, invariant, bounds *)

Section ShifterSafety.
Context {F : Type} `{Float64 F} {S : Type} `{Reader S} `{Shifter.MaybeSeeker S}.
Import Samples Window Shifter ShifterSpec.
Implicit Types (self : SpeedShifter F S) (l r : circularWindow F).

Lemma len_copy {A} (dst src : list A) : len (copy dst src) = len dst.
Proof.
  unfold copy, len. rewrite length_app, length_take, length_drop. lia.
Qed.

Lemma len_write_at (a : list byte) off data :
  0 <= off <= len a -> len (write_at a off data) = len a.
Proof.
  intros Ho. unfold write_at. rewrite len_app, len_copy.
  unfold len in *. rewrite length_take, length_drop. lia.
Qed.

Lemma StoreL16Sample_Done (buffer : list byte) (a b : Z) :
  4 <= len buffer ->
  exists buffer',
    StoreL16Sample buffer a b = Done buffer' /\
    len buffer' = len buffer /\ drop 4 buffer' = drop 4 buffer.
Proof.
  intros Hb. unfold StoreL16Sample.
  rewrite store_Done by lia. cbn [bind].
  rewrite store_Done by (rewrite len_insert; lia). cbn [bind].
  rewrite store_Done by (rewrite !len_insert; lia). cbn [bind].
  rewrite store_Done by (rewrite !len_insert; lia). cbn [bind].
  eexists. split; [reflexivity|]. rewrite !len_insert. split; [reflexivity|].
  destruct buffer as [ | c0 [ | c1 [ | c2 [ | c3 rest ] ] ] ];
    try (unfold len in Hb; cbn in Hb; lia).
  reflexivity.
Qed.

Lemma shiftl_1 z : Z.shiftl z 1 = 2 * z.
Proof. rewrite Z.shiftl_mul_pow2 by lia. lia. Qed.


Lemma pushBoth_windows ws capl capr k l r (a b : F) :
  1 <= ws <= capl -> ws <= capr ->
  windows_inv ws capl capr k l r ->
  exists l' r',
    pushBoth l r a b = Done (l', r') /\ windows_inv ws capl capr (k + 4) l' r'.
Proof.
  intros Hl Hr (vl & vr & Il & Ir & Kl & Kr).
  destruct (pushBoth_inv ws capl capr l r vl vr a b ltac:(lia) ltac:(lia) Il Ir)
    as (l' & r' & E & Il' & Ir').
  exists l', r'. split; [exact E|].
  exists (vl ++ [a]), (vr ++ [b]). rewrite !len_app.
  change (len [a]) with 1. change (len [b]) with 1.
  split; [exact Il'|]. split; [exact Ir'|]. lia.
Qed.







Lemma len_view (b : byteSlice) : 0 <= slen b <= cap b -> len (view b) = slen b.
Proof.
  intros Hb. unfold view, cap, len in *. rewrite length_take. lia.
Qed.





(** The reset sets up the state that [Read] relies on. *)
Lemma internalReset_inv self :
  2 <= windowSize self -> Z.rem (windowSize self) 2 = 0 ->
  winSize (leftWindow self) = windowSize self ->
  winSize (rightWindow self) = windowSize self ->
  windowSize self <= len (buffer (leftWindow self)) ->
  windowSize self <= len (buffer (rightWindow self)) ->
  0 <= slen (auxReadBuffer self) <= cap (auxReadBuffer self) ->
  exists self',
    internalReset self = Done self' /\ shifter_inv self' /\
    windowSize self' = windowSize self /\ interpolator self' = interpolator self /\
    speed self' = speed self /\ fracPos self' = fracPos self.
Proof.
  intros Hws Heven Hwl Hwr Hcl Hcr Haux.
  unfold internalReset.
  cbn [leftWindow rightWindow set_leftoverBytes set_lookaheadBytes windowSize source].
  change (len [0; 0; 0; 0]) with 4.
  set (ws := windowSize self) in *.
  set (k := Z.to_nat (Z.quot ws 2 - 1)).
  pose proof (Z.quot_rem' ws 2) as Hq. rewrite Heven in Hq.
  destruct (pushZeros_inv ws (len (buffer (leftWindow self)))
              (len (buffer (rightWindow self))) k
              (Reset (leftWindow self)) (Reset (rightWindow self)) [] [])
    as (l1 & r1 & E1 & Il1 & Ir1); try lia.
  { rewrite <- Hwl. apply window_inv_Reset. apply len_nonneg. }
  { rewrite <- Hwr. apply window_inv_Reset. apply len_nonneg. }
  rewrite E1. cbn [bind app] in *.
  destruct (io_Read (source self) 4) as [[data rerr] src].
  destruct (bootstrapSample_Done (F := F) data) as (sl & sr & B).
  assert ((if len data =? 4
           then let! (left_, right_) := GetSampleAsF64 (copy [0; 0; 0; 0] data) in
                pushBoth l1 r1 left_ right_
           else pushBoth l1 r1 (f_of_int 0) (f_of_int 0))
          = pushBoth l1 r1 sl sr) as ->.
  { unfold bootstrapSample in B. destruct (len data =? 4).
    - rewrite B. reflexivity.
    - injection B as <- <-. reflexivity. }
  destruct (pushBoth_inv ws (len (buffer (leftWindow self)))
              (len (buffer (rightWindow self))) l1 r1 _ _ sl sr
              ltac:(lia) ltac:(lia) Il1 Ir1)
    as (l2 & r2 & -> & Il2 & Ir2).
  cbn [bind].
  eexists. split; [reflexivity|].
  split; [|repeat split; reflexivity].
  pose proof Il2 as (_ & Cl & _). pose proof Ir2 as (_ & Cr & _).
  unfold shifter_inv.
  cbn [windowSize leftWindow rightWindow lookaheadBytes leftoverBytes auxReadBuffer
       set_windows set_source].
  change (windowSize (set_lookaheadBytes (set_leftoverBytes self 0) 0)) with ws.
  change (lookaheadBytes (set_lookaheadBytes (set_leftoverBytes self 0) 0)) with 0.
  change (leftoverBytes (set_lookaheadBytes (set_leftoverBytes self 0) 0)) with 0.
  change (auxReadBuffer (set_lookaheadBytes (set_leftoverBytes self 0) 0))
    with (auxReadBuffer self).
  rewrite Cl, Cr.
  split; [lia|]. split; [exact Heven|]. split; [exact Hcl|]. split; [exact Hcr|].
  split; [|lia].
  exists (repeat (f_of_int 0) k ++ [sl]), (repeat (f_of_int 0) k ++ [sr]).
  split; [exact Il2|]. split; [exact Ir2|].
  rewrite !len_app. unfold len. rewrite !repeat_length. cbn [length].
  unfold k. lia.
Qed.

Lemma Hermite6_total (samples : list F) (x : F) :
  len samples = 6 -> exists y, Interp.InterpHermite6Pt3Ord samples x = Done y.
Proof.
  intros Hl.
  destruct samples as [ | s0 [ | s1 [ | s2 [ | s3 [ | s4 [ | s5 [ | s6 rest ] ] ] ] ] ] ];
    try (unfold len in Hl; cbn in Hl; lia).
  eexists. reflexivity.
Qed.

Lemma NewSpeedShifter_inv (src : S) (speed0 : F) (w : Z) i :
  2 <= w -> Z.rem w 2 = 0 ->
  exists self0,
    NewSpeedShifter src speed0 w i = Done self0 /\ shifter_inv self0 /\
    windowSize self0 = w /\ Speed self0 = speed0 /\ interpolator self0 = i.
Proof.
  intros Hw He. unfold NewSpeedShifter.
  destruct (Z.ltb_spec w 2); [lia|]. rewrite He. cbn [Z.eqb negb].
  set (self0 := mkShifter _ _ _ _ _ _ _ _ _ _).
  destruct (internalReset_inv self0) as (self1 & E & Inv & Hw1 & Hi1 & Hs1 & _);
    try (unfold self0, nilSlice, cap; cbn; unfold len; rewrite ?repeat_length;
         cbn [length]; lia).
  exists self1. rewrite E. auto.
Qed.



End ShifterSafety.




Section ShifterEdges.
Context {F : Type} `{Float64 F} {S : Type} `{Reader S} `{Shifter.MaybeSeeker S}.
Import Shifter.

(** A buffer with no room for a whole sample: [Read] returns 0 and no
    error at once, whatever the state of the shifter, and leaves the
    buffer, the shifter and its source as they were. *)
Theorem Read_without_room (fuel : nat) (self : SpeedShifter F S) (buffer : list byte) :
  len buffer < 4 ->
  Shifter.Read (Datatypes.S fuel) self buffer = Done (0, None, buffer, self).
Proof.
  intros Hl. unfold Shifter.Read. rewrite land3_mod4.
  pose proof (len_nonneg buffer).
  rewrite (Z.mod_small (len buffer) 4) by lia. rewrite Z.sub_diag.
  rewrite slice_Done by lia. cbn [bind].
  change (take (Z.to_nat (0 - 0)) (drop (Z.to_nat 0) buffer)) with (@nil byte).
  cbn [Shifter.Read_loop]. change (0 <? len []) with false. cbn [bind app].
  reflexivity.
Qed.

End ShifterEdges.

Lemma Read_without_room_witness :
  exists self,
    Example.fastShifter = Done self /\
    Shifter.Read 1 self [7; 7; 7] = Done (0, None, [7; 7; 7], self).
Proof.
  destruct (NewSpeedShifter_inv (F := float64) (LoopSpec.mem Example.ramp 5 0)
              (f_lit 3 2) 6 Interp.InterpHermite6Pt3Ord ltac:(lia) eq_refl)
    as (self & E & _).
  exists self. split; [exact E|].
  apply (Read_without_room 0 self [7; 7; 7]). by_eval.
Defined.

(** ** Samples as float64: the way through the shifter *)

Section FloatSamples.
Import Samples.

Lemma pos_iter_xO (p d : positive) : Z.pos (Pos.iter xO p d) = Z.pos p * 2 ^ Z.pos d.
Proof.
  induction d as [|d IH] using Pos.peano_ind.
  - cbn [Pos.iter]. lia.
  - rewrite Pos.iter_succ, Pos2Z.inj_succ, Z.pow_succ_r by lia.
    rewrite Pos2Z.inj_xO, IH. ring.
Qed.

Lemma digits2_pos_iter_xO (p d : positive) :
  Z.pos (digits2_pos (Pos.iter xO p d)) = Z.pos (digits2_pos p) + Z.pos d.
Proof.
  induction d as [|d IH] using Pos.peano_ind.
  - cbn [Pos.iter digits2_pos]. lia.
  - rewrite Pos.iter_succ. cbn [digits2_pos].
    rewrite !Pos2Z.inj_succ, IH. lia.
Qed.

(** A small integer is a float64: its conversion is exact, the
    mantissa is the integer shifted to 53 bits. *)
Lemma binary_round_small (s : bool) (p : positive) :
  Z.pos (digits2_pos p) < 53 ->
  let d := Z.to_pos (53 - Z.pos (digits2_pos p)) in
  binary_round prec emax s p 0 = S754_finite s (Pos.iter xO p d) (Z.neg d).
Proof.
  intros Hd d.
  assert (Z.pos d = 53 - Z.pos (digits2_pos p)) as Hpd by (unfold d; lia).
  unfold binary_round, shl_align.
  assert (fexp prec emax (Z.pos (digits2_pos p) + 0) = Z.neg d) as ->
    by (unfold fexp, emin, prec, emax; lia).
  rewrite Z.sub_0_r. cbv beta iota.
  change (PosDef.Pos.iter xO p d) with (Pos.iter xO p d).
  unfold binary_round_aux, shr_fexp.
  assert (fexp prec emax (Zdigits2 (Z.pos (Pos.iter xO p d)) + Z.neg d) - Z.neg d = 0)
    as E0.
  { unfold Zdigits2. rewrite digits2_pos_iter_xO.
    unfold fexp, emin, prec, emax. lia. }
  rewrite E0. cbn [shr shr_record_of_loc shr_m loc_of_shr_record round_nearest_even].
  rewrite E0. cbn [shr shr_record_of_loc shr_m].
  destruct (Z.leb_spec (Z.neg d) (emax - prec)); [reflexivity|].
  unfold emax, prec in *. lia.
Qed.

Lemma SFtrunc_shifted (s : bool) (p d : positive) :
  SFtrunc (S754_finite s (Pos.iter xO p d) (Z.neg d)) = Some (cond_Zopp s (Z.pos p)).
Proof.
  unfold SFtrunc. f_equal.
  rewrite Z.max_r, Z.max_l by lia. rewrite Z.pow_0_r, Z.mul_1_r.
  change (- Z.neg d) with (Z.pos d).
  destruct s; cbn [cond_Zopp].
  - rewrite Z.quot_opp_l by lia. rewrite pos_iter_xO, Z.quot_mul by lia. reflexivity.
  - rewrite pos_iter_xO, Z.quot_mul by lia. reflexivity.
Qed.

Lemma small_digits (p : positive) k :
  Z.pos p < 2 ^ k -> 0 <= k -> Z.pos (digits2_pos p) <= k.
Proof.
  intros Hp Hk. exact (Zdigits2_le (Z.pos p) k ltac:(lia) Hk).
Qed.

Lemma SFleb_pos_true m1 e1 m2 e2 :
  SFleb (S754_finite false m1 e1) (S754_finite false m2 e2) = true ->
  e1 < e2 \/ (e1 = e2 /\ Z.pos m1 <= Z.pos m2).
Proof.
  unfold SFleb, SFcompare.
  change (Pos.compare_cont Eq m1 m2) with (Pos.compare m1 m2).
  destruct (Z.compare_spec e1 e2); try discriminate; [|lia].
  destruct (Pos.compare_spec m1 m2); try discriminate; lia.
Qed.

Lemma SFleb_neg_true m1 e1 m2 e2 :
  SFleb (S754_finite true m1 e1) (S754_finite true m2 e2) = true ->
  e2 < e1 \/ (e1 = e2 /\ Z.pos m2 <= Z.pos m1).
Proof.
  unfold SFleb, SFcompare.
  change (Pos.compare_cont Eq m1 m2) with (Pos.compare m1 m2).
  destruct (Z.compare_spec e1 e2); try discriminate; [|lia].
  destruct (Pos.compare_spec m1 m2); try discriminate; lia.
Qed.

(** [clipFloatToI16(float64(v))] is [v] for every 16-bit sample. *)
Lemma clip_of_int (v : Z) :
  - 2 ^ 15 <= v < 2 ^ 15 -> clipFloatToI16 (f_of_int v : float64) = v.
Proof.
  intros Hv. unfold clipFloatToI16.
  change (f_of_int (F := float64)) with SFof_int.
  change (f_le (F := float64)) with SFleb.
  rewrite c32767, cm32768.
  destruct v as [|p|p].
  - reflexivity.
  - unfold SFof_int, binary_normalize.
    pose proof (small_digits p 15 ltac:(lia) ltac:(lia)) as Hd.
    rewrite binary_round_small by lia.
    set (d := Z.to_pos (53 - Z.pos (digits2_pos p))).
    assert (Z.pos d = 53 - Z.pos (digits2_pos p)) as Hpd by (unfold d; lia).
    pose proof (pos_iter_xO p d) as Hm.
    destruct (SFleb (S754_finite false 9006924376834048 (-38))
                    (S754_finite false (Pos.iter xO p d) (Z.neg d))) eqn:C.
    + (* the comparison holds only for 32767 itself *)
      apply SFleb_pos_true in C. destruct C as [C|[C1 C2]]; [lia|].
      assert (Z.pos d = 38) as Hd38 by lia.
      rewrite Hm, Hd38 in C2.
      change (Z.pos 9006924376834048) with (32767 * 2 ^ 38) in C2.
      apply Z.mul_le_mono_pos_r in C2; lia.
    + change (SFleb (S754_finite false (Pos.iter xO p d) (Z.neg d))
                    (S754_finite true 4503599627370496 (-37))) with false.
      cbv iota.
      change (f_to_i16 (F := float64)) with (SFto_int (- 2 ^ 15) (2 ^ 15 - 1) 0).
      apply SFto_i16_trunc; [apply (SFtrunc_shifted false)|].
      cbn [cond_Zopp]. lia.
  - unfold SFof_int, binary_normalize.
    pose proof (small_digits p 16 ltac:(lia) ltac:(lia)) as Hd.
    rewrite binary_round_small by lia.
    set (d := Z.to_pos (53 - Z.pos (digits2_pos p))).
    assert (Z.pos d = 53 - Z.pos (digits2_pos p)) as Hpd by (unfold d; lia).
    pose proof (pos_iter_xO p d) as Hm.
    change (SFleb (S754_finite false 9006924376834048 (-38))
                  (S754_finite true (Pos.iter xO p d) (Z.neg d))) with false.
    cbv iota.
    destruct (SFleb (S754_finite true (Pos.iter xO p d) (Z.neg d))
                    (S754_finite true 4503599627370496 (-37))) eqn:C.
    + apply SFleb_neg_true in C. destruct C as [C|[C1 C2]]; [lia|].
      assert (Z.pos d = 37) as Hd37 by lia.
      rewrite Hm, Hd37 in C2.
      change (Z.pos 4503599627370496) with (32768 * 2 ^ 37) in C2.
      apply Z.mul_le_mono_pos_r in C2; lia.
    + change (f_to_i16 (F := float64)) with (SFto_int (- 2 ^ 15) (2 ^ 15 - 1) 0).
      apply SFto_i16_trunc; [apply (SFtrunc_shifted true)|].
      cbn [cond_Zopp]. lia.
Qed.

(** A sample that goes through float64 comes back unchanged: for
    every 16-bit value [v], [clipFloatToI16(float64(v))] is [v] in IEEE
    double precision, so [StoreF64SampleAsL16] of the two channels that
    [GetSampleAsI16] decoded, converted to float64 as the shifter does,
    writes the four bytes that were read. *)
Theorem float64_samples_come_back (v : Z) (b0 b1 b2 b3 : byte) (rest dst : list byte) :
  (- 2 ^ 15 <= v < 2 ^ 15 -> clipFloatToI16 (f_of_int v : float64) = v) /\
  (0 <= b0 < 256 -> 0 <= b1 < 256 -> 0 <= b2 < 256 -> 0 <= b3 < 256 ->
   4 <= len dst ->
   exists l r,
     GetSampleAsI16 (b0 :: b1 :: b2 :: b3 :: rest) = Done (l, r) /\
     StoreF64SampleAsL16 dst (f_of_int l : float64) (f_of_int r) =
       Done (b0 :: b1 :: b2 :: b3 :: drop 4 dst)).
Proof.
  split; [apply clip_of_int|].
  intros H0 H1 H2 H3 Hd.
  exists (wrap16 (b0 + 256 * b1)), (wrap16 (b2 + 256 * b3)).
  split; [apply GetSampleAsI16_value; assumption|].
  unfold StoreF64SampleAsL16.
  rewrite !clip_of_int by apply wrap16_range.
  apply StoreL16Sample_recode; assumption.
Qed.

End FloatSamples.

(** The sample [00 80 ff 7f], -32768 and 32767, through float64. *)
Lemma float64_samples_come_back_witness :
  Samples.clipFloatToI16 (f_of_int (-12345) : float64) = -12345 /\
  exists l r,
    Samples.GetSampleAsI16 [0; 128; 255; 127; 9] = Done (l, r) /\
    Samples.StoreF64SampleAsL16 [1; 2; 3; 4; 5; 6] (f_of_int l : float64) (f_of_int r) =
      Done (0 :: 128 :: 255 :: 127 :: drop 4 [1; 2; 3; 4; 5; 6]).
Proof.
  split.
  - apply (proj1 (float64_samples_come_back (-12345) 0 0 0 0 [] [])). lia.
  - apply (proj2 (float64_samples_come_back 0 0 128 255 127 [9] [1; 2; 3; 4; 5; 6]));
      by_eval.
Defined.

(** ** The speed shifter below speed 1: a request that the leftover
    bytes already cover *)

Section ShifterStarved.
Context {S : Type} `{Reader S} `{Shifter.MaybeSeeker S}.
Import Samples Window Shifter ShifterSpec.
Implicit Types (self : SpeedShifter float64 S).

Lemma internalReset_fields self self' :
  internalReset self = Done self' ->
  leftoverBytes self' = 0 /\ lookaheadBytes self' = 0 /\
  fracPos self' = fracPos self /\ speed self' = speed self /\
  source self' = snd (io_Read (source self) 4) /\
  auxReadBuffer self' = auxReadBuffer self.
Proof.
  unfold internalReset. intros E.
  bind_inv E. destruct x as [l r].
  change (len [0; 0; 0; 0]) with 4 in E.
  cbn [source set_lookaheadBytes set_leftoverBytes] in E.
  destruct (io_Read (source self) 4) as [[data rerr] src].
  bind_inv E. destruct x as [l' r']. injection E as <-.
  repeat split; reflexivity.
Qed.

Lemma view_after_read (a d : list byte) (k : nat) :
  (length d <= k)%nat -> (length d <= length a)%nat ->
  view (mkSlice (write_at a 0 (take k d)) (len d)) = d.
Proof.
  intros Hk Hd. unfold view, write_at, copy, len.
  change (Z.to_nat 0) with 0%nat. cbn [arr slen take drop app].
  rewrite Nat2Z.id. rewrite (take_ge d k) by lia.
  rewrite !drop_0, take_0. cbn [app].
  rewrite (take_ge d (length a)) by lia.
  rewrite take_app_length. reflexivity.
Qed.

(** The lookahead loop over a read buffer that starts with just the
    bytes it still needs: it takes them all and leaves the rest. *)
Lemma lookaheadLoop_fill ws capl capr :
  forall (k : nat) (d rest : list byte) la (l r : circularWindow float64),
  length d = (4 * k)%nat -> la + 4 * Z.of_nat k = 2 * ws ->
  1 <= ws <= capl -> ws <= capr ->
  windows_inv ws capl capr (2 * ws + la) l r ->
  exists l' r',
    lookaheadLoop ws (d ++ rest) la l r = Done (false, rest, 2 * ws, l', r') /\
    windows_inv ws capl capr (4 * ws) l' r'.
Proof.
  induction k as [|k IH]; intros d rest la l r Hd Hla Hl Hr Inv.
  - destruct d; [|cbn in Hd; lia]. cbn [app].
    assert (la = 2 * ws) as -> by lia.
    exists l, r. split.
    + destruct rest; cbn [lookaheadLoop]; rewrite shiftl_1, Z.ltb_irrefl; reflexivity.
    + replace (4 * ws) with (2 * ws + 2 * ws) by lia. exact Inv.
  - destruct d as [ | b0 [ | b1 [ | b2 [ | b3 d ] ] ] ]; try (cbn in Hd; lia).
    cbn [app lookaheadLoop]. rewrite shiftl_1.
    destruct (Z.ltb_spec la (2 * ws)); [|lia].
    destruct (GetSampleAsI16_Done (b0 :: b1 :: b2 :: b3 :: d ++ rest)) as (x & y & ->).
    { unfold len. cbn [length]. lia. }
    cbn [bind].
    destruct (pushBoth_windows ws capl capr (2 * ws + la) l r (f_of_int x) (f_of_int y)
                Hl Hr Inv) as (l1 & r1 & -> & Inv1).
    cbn [bind].
    apply IH; try assumption.
    + cbn [length] in Hd. lia.
    + lia.
    + replace (2 * ws + (la + 4)) with (2 * ws + la + 4) by lia. exact Inv1.
Qed.

(** The first [Read] of one sample at half speed, from a source that
    delivers the bytes it is asked for: the lookahead is filled, one
    sample is served and one sample of input is left over. *)
Lemma singleRead_one_at_half (fuel : nat) self (buffer d1 : list byte) e1 src2 :
  shifter_inv self -> interp_total self ->
  speed self = f_lit 1 2 -> fracPos self = f_of_int 0 ->
  leftoverBytes self = 0 -> lookaheadBytes self = 0 ->
  f_to_int (F := float64)
    (f_ceil (f_of_int 4 * f_lit 1 2 / f_of_int 4) * f_of_int 4
     + f_of_int (Z.shiftl (windowSize self) 1 - 0 - 0))%F = 2 * windowSize self + 4 ->
  len buffer = 4 ->
  io_Read (source self) (2 * windowSize self + 4) = (d1, e1, src2) ->
  len d1 = 2 * windowSize self + 4 ->
  exists buffer' self1,
    singleRead (Datatypes.S (Datatypes.S fuel)) self buffer = Done (4, e1, buffer', self1) /\
    len buffer' = 4 /\
    windowSize self1 = windowSize self /\ speed self1 = f_lit 1 2 /\
    lookaheadBytes self1 = 2 * windowSize self /\ leftoverBytes self1 = 4.
Proof.
  intros Inv Hi Hsp Hfp Hlo Hla Hbytes Hb R1 Hd1.
  unfold singleRead. rewrite Hb, Hsp, Hlo, Hla.
  change (4 =? 0) with false. cbv iota.
  rewrite Hbytes.
  pose proof Inv as (Hws & Heven & Hcl & Hcr & Winv & Haux & Hcap).
  set (ws := windowSize self) in *.
  set (n := 2 * ws + 4) in *.
  destruct (Z.leb_spec n 0); [lia|].
  rewrite Hla in Winv. rewrite Hlo in Haux. rewrite Z.add_0_l.
  set (aux := auxReadBuffer self) in *.
  (* the aux buffer for this read *)
  assert (exists rb,
            (if slen aux <? n
             then if cap aux >=? n then reslice aux n else make n
             else reslice aux n) = Done rb /\
            slen rb = n /\ n <= cap rb) as (rb & -> & Hrb & Hrbc).
  { unfold reslice, make.
    destruct (Z.leb_spec 0 n); [|lia]. cbn [andb].
    destruct (Z.ltb_spec (slen aux) n).
    - destruct (Z.geb_spec (cap aux) n).
      + destruct (Z.leb_spec n (cap aux)); [|lia].
        eexists. split; [reflexivity|]. split; [reflexivity|]. assumption.
      + eexists. split; [reflexivity|]. split; [reflexivity|].
        unfold cap, len. cbn [arr]. rewrite repeat_length. lia.
    - destruct (Z.leb_spec n (cap aux)); [|lia].
      eexists. split; [reflexivity|]. split; [reflexivity|]. assumption. }
  cbn [bind]. change (0 >? 0) with false. cbv iota. cbn [bind].
  assert (len (view rb) = n) as Hview by (rewrite len_view; lia).
  rewrite slice_Done by lia. cbn [bind].
  set (dst := take _ (drop _ (view rb))).
  assert (len dst = n) as Hdst.
  { unfold dst. unfold len in *. rewrite length_take, length_drop. lia. }
  rewrite Hdst, R1. rewrite Z.add_0_r.
  unfold reslice at 1. cbn [arr slen].
  assert (cap (mkSlice (write_at (arr rb) 0 (take (length dst) d1)) (slen rb)) = cap rb)
    as Hcap1.
  { unfold cap in *. cbn [arr]. apply len_write_at. lia. }
  rewrite Hcap1, Hd1.
  destruct (Z.leb_spec n (cap rb)); [|lia].
  destruct (Z.leb_spec 0 n); [|lia]. cbn [andb bind].
  set (rb1 := mkSlice _ n).
  assert (view rb1 = d1) as Hv1.
  { unfold rb1. rewrite <- Hd1. apply view_after_read; unfold cap, len in *; lia. }
  rewrite Hv1.
  set (self1 := set_auxReadBuffer (set_source self src2) rb1).
  change (windowSize self1) with ws.
  change (lookaheadBytes self1) with (lookaheadBytes self).
  change (leftWindow self1) with (leftWindow self).
  change (rightWindow self1) with (rightWindow self).
  rewrite Hla.
  set (capl := len (Window.buffer (leftWindow self))) in *.
  set (capr := len (Window.buffer (rightWindow self))) in *.
  (* the lookahead takes all but the last sample *)
  pose proof (Z.quot_rem' ws 2) as Hq. rewrite Heven in Hq.
  rewrite <- (take_drop (Z.to_nat (2 * ws)) d1).
  assert (length (drop (Z.to_nat (2 * ws)) d1) = 4%nat) as Hrest
    by (rewrite length_drop; unfold len in Hd1; lia).
  destruct (drop (Z.to_nat (2 * ws)) d1) as [ | c0 [ | c1 [ | c2 [ | c3 [ | c4 rest ] ] ] ] ];
    try (cbn [length] in Hrest; lia).
  destruct (lookaheadLoop_fill ws capl capr (Z.to_nat (Z.quot ws 2))
              (take (Z.to_nat (2 * ws)) d1) [c0; c1; c2; c3] 0
              (leftWindow self) (rightWindow self))
    as (l1 & r1 & -> & Inv1); try lia.
  { rewrite length_take. unfold len in Hd1. lia. }
  { rewrite Z.add_0_r in Winv |- *. exact Winv. }
  cbn [bind].
  (* one sample is served, the other one stays in the read buffer *)
  set (self2 := set_windows (set_lookaheadBytes self1 (2 * ws)) l1 r1).
  change (fracPos self2) with (fracPos self). rewrite Hfp.
  remember (Datatypes.S fuel) as fuel1 eqn:Ef.
  cbn [processLoop].
  change (len [c0; c1; c2; c3]) with 4. rewrite Hb.
  change ((4 >=? 4) && (0 <? 4)) with true. cbv iota.
  assert (((f_of_int 0 : float64) <? f_of_int 1)%F = true) as Clt
    by (vm_compute; reflexivity).
  rewrite Clt.
  change (windowSize self2) with ws.
  change (interpolator self2) with (interpolator self).
  change (speed self2) with (speed self).
  rewrite Hsp.
  pose proof Inv1 as (vl & vr & Il & Ir & Kl & Kr).
  rewrite (window_inv_Get _ _ _ _ Il), (window_inv_Get _ _ _ _ Ir). cbn [bind].
  destruct (Hi (last_n ws vl) (f_of_int (Z.quot ws 2 - 1) + f_of_int 0)%F) as (yl & ->).
  { fold ws. unfold len in *. rewrite last_n_length by lia. lia. }
  cbn [bind].
  destruct (Hi (last_n ws vr) (f_of_int (Z.quot ws 2 - 1) + f_of_int 0)%F) as (yr & ->).
  { fold ws. unfold len in *. rewrite last_n_length by lia. lia. }
  cbn [bind].
  rewrite slice_Done by lia. cbn [bind].
  unfold StoreF64SampleAsL16.
  destruct (StoreL16Sample_Done
              (take (Z.to_nat (4 - 0)) (drop (Z.to_nat 0) buffer))
              (clipFloatToI16 yl) (clipFloatToI16 yr)) as (dst' & -> & Ld & _).
  { unfold len in *. rewrite length_take, length_drop. lia. }
  cbn [bind].
  assert (len (take (Z.to_nat 0) buffer ++ dst') = 4) as Lb.
  { rewrite len_app, Ld. unfold len in *.
    rewrite !length_take, length_drop. lia. }
  assert (((f_of_int 0 : float64) + f_lit 1 2 >=? f_of_int 1)%F = false) as Cge
    by (vm_compute; reflexivity).
  cbn [advanceLoop]. rewrite Cge. cbn [bind].
  rewrite Ef. cbn [processLoop]. rewrite Lb.
  change (len [c0; c1; c2; c3]) with 4.
  change ((4 >=? 4) && (0 + 4 <? 4)) with false. cbv iota. cbn [bind].
  cbn [p_bytesServed p_buffer p_readBuffer p_fracPos p_left p_right].
  change (len [c0; c1; c2; c3]) with 4.
  eexists _, _. split; [reflexivity|].
  split; [exact Lb|].
  split; [reflexivity|]. split; [exact Hsp|]. split; reflexivity.
Qed.

(** The next [singleRead] of one sample: the leftover sample covers
    what it needs, and it asks for no byte at all. *)
Lemma singleRead_starved (fuel : nat) self (buffer : list byte) :
  speed self = f_lit 1 2 ->
  lookaheadBytes self = 2 * windowSize self -> leftoverBytes self = 4 ->
  len buffer = 4 ->
  singleRead fuel self buffer = Panic "unexpected situation".
Proof.
  intros Hsp Hla Hlo Hb. unfold singleRead.
  rewrite Hb, Hsp, Hla, Hlo, shiftl_1.
  change (4 =? 0) with false. cbv iota.
  replace (2 * windowSize self - 2 * windowSize self - 4) with (-4) by lia.
  assert (f_to_int (F := float64)
            (f_ceil (f_of_int 4 * f_lit 1 2 / f_of_int 4) * f_of_int 4
             + f_of_int (-4))%F = 0) as -> by (vm_compute; reflexivity).
  reflexivity.
Qed.

(** What [singleRead] asks the source for on the first read of one
    sample at half speed: the lookahead and one sample. *)
Lemma bytesToRead_at_half (ws : Z) :
  2 <= ws <= 64 ->
  f_to_int (F := float64)
    (f_ceil (f_of_int 4 * f_lit 1 2 / f_of_int 4) * f_of_int 4
     + f_of_int (Z.shiftl ws 1 - 0 - 0))%F = 2 * ws + 4.
Proof.
  intros Hws.
  assert (forallb
            (fun w =>
               f_to_int (F := float64)
                 (f_ceil (f_of_int 4 * f_lit 1 2 / f_of_int 4) * f_of_int 4
                  + f_of_int (Z.shiftl w 1 - 0 - 0))%F =? 2 * w + 4)
            (map Z.of_nat (seq 2 63)) = true) as Hall by (vm_compute; reflexivity).
  rewrite forallb_forall in Hall.
  apply Z.eqb_eq, Hall, in_map_iff.
  exists (Z.to_nat ws). split; [lia|]. apply in_seq. lia.
Qed.

Lemma Read_one_sample (fuel : nat) self (buffer buffer' : list byte) e self' :
  len buffer = 4 -> len buffer' = 4 ->
  singleRead (Datatypes.S (Datatypes.S fuel)) self buffer = Done (4, e, buffer', self') ->
  Read (Datatypes.S (Datatypes.S fuel)) self buffer = Done (4, e, buffer', self').
Proof.
  intros Hb Hb' E. unfold Read. rewrite Hb.
  change (4 - Z.land 4 3) with 4.
  rewrite slice_Done by lia.
  assert (take (Z.to_nat (4 - 0)) (drop (Z.to_nat 0) buffer) = buffer) as ->.
  { rewrite drop_0. apply take_ge. unfold len in Hb. lia. }
  cbn [bind Read_loop]. rewrite Hb. change (0 <? 4) with true. cbv iota.
  rewrite slice_Done by lia.
  assert (take (Z.to_nat (4 - 0)) (drop (Z.to_nat 0) buffer) = buffer) as ->.
  { rewrite drop_0. apply take_ge. unfold len in Hb. lia. }
  cbn [bind]. rewrite E. cbn [bind].
  change (take (Z.to_nat 0) buffer) with (@nil byte). cbn [app].
  assert (drop (Z.to_nat 4) buffer = []) as Hd
    by (apply drop_ge; unfold len in Hb; lia).
  destruct e as [e|].
  - cbn [bind]. rewrite Hd, app_nil_r. reflexivity.
  - rewrite Hb'. change (0 + 4 <? 4) with false. cbv iota. cbn [bind].
    rewrite Hd, app_nil_r. reflexivity.
Qed.

Lemma Read_starved (fuel : nat) self (buffer : list byte) :
  len buffer = 4 ->
  singleRead (Datatypes.S fuel) self buffer = Panic "unexpected situation" ->
  Read (Datatypes.S fuel) self buffer = Panic "unexpected situation".
Proof.
  intros Hb E. unfold Read. rewrite Hb.
  change (4 - Z.land 4 3) with 4.
  rewrite slice_Done by lia.
  assert (take (Z.to_nat (4 - 0)) (drop (Z.to_nat 0) buffer) = buffer) as ->.
  { rewrite drop_0. apply take_ge. unfold len in Hb. lia. }
  cbn [bind Read_loop]. rewrite Hb. change (0 <? 4) with true. cbv iota.
  rewrite slice_Done by lia.
  assert (take (Z.to_nat (4 - 0)) (drop (Z.to_nat 0) buffer) = buffer) as ->.
  { rewrite drop_0. apply take_ge. unfold len in Hb. lia. }
  cbn [bind]. rewrite E. reflexivity.
Qed.

Lemma NewSpeedShifter_fields (src : S) (speed0 : float64) (w : Z) i self0 :
  NewSpeedShifter src speed0 w i = Done self0 ->
  fracPos self0 = f_of_int 0 /\ leftoverBytes self0 = 0 /\ lookaheadBytes self0 = 0 /\
  source self0 = snd (io_Read src 4).
Proof.
  unfold NewSpeedShifter. intros E.
  destruct (w <? 2); [discriminate|].
  destruct (negb (Z.rem w 2 =? 0)); [discriminate|].
  apply internalReset_fields in E as (Hlo & Hla & Hfp & _ & Hsrc & _).
  auto.
Qed.

(** Small reads at a slow speed stop the shifter. On a shifter with an
    even window size up to 64 and an interpolator that returns on
    windows of that size (the default shifter is one), set to speed
    1/2, over a source that delivers the bytes it is asked for: a
    [Read] into a buffer of 4 bytes returns 4, and leaves one sample of
    input over; the next [Read] into a buffer of 4 bytes needs no
    input beyond that sample, computes that it has 0 bytes to read and
    panics with [unexpected situation]. *)
Theorem slow_small_reads_panic (src : S) (speed0 : float64) (ws : Z) interp
    (buffer1 buffer2 d0 d1 : list byte) e0 e1 (src1 src2 : S) (fuel fuel' : nat) :
  2 <= ws <= 64 -> Z.rem ws 2 = 0 ->
  (forall samples x, len samples = ws -> exists y, interp samples x = Done y) ->
  io_Read src 4 = (d0, e0, src1) ->
  io_Read src1 (2 * ws + 4) = (d1, e1, src2) -> len d1 = 2 * ws + 4 ->
  len buffer1 = 4 -> len buffer2 = 4 ->
  exists self0 buffer1' self1,
    NewSpeedShifter src speed0 ws interp = Done self0 /\
    Read (Datatypes.S (Datatypes.S fuel)) (SetSpeed self0 (f_lit 1 2)) buffer1
      = Done (4, e1, buffer1', self1) /\
    Read (Datatypes.S fuel') self1 buffer2 = Panic "unexpected situation".
Proof.
  intros Hws Heven Hi R0 R1 Hd1 Hb1 Hb2.
  destruct (NewSpeedShifter_inv src speed0 ws interp ltac:(lia) Heven)
    as (self0 & E & Inv & Hw & _ & Hint).
  destruct (NewSpeedShifter_fields _ _ _ _ _ E) as (Hfp & Hlo & Hla & Hsrc).
  rewrite R0 in Hsrc. cbn [snd] in Hsrc.
  set (self := SetSpeed self0 (f_lit 1 2)).
  destruct (singleRead_one_at_half fuel self buffer1 d1 e1 src2)
    as (buffer1' & self1 & E1 & Lb & Hw1 & Hs1 & Hla1 & Hlo1);
    try assumption; try reflexivity.
  - intros samples x Hl. change (interpolator self) with (interpolator self0).
    rewrite Hint. apply Hi. rewrite Hl. exact Hw.
  - change (windowSize self) with (windowSize self0). rewrite Hw.
    apply bytesToRead_at_half. exact Hws.
  - change (source self) with (source self0).
    change (windowSize self) with (windowSize self0). rewrite Hsrc, Hw. exact R1.
  - change (windowSize self) with (windowSize self0). rewrite Hw. exact Hd1.
  - exists self0, buffer1', self1. split; [exact E|].
    split; [apply Read_one_sample; assumption|].
    apply Read_starved; [exact Hb2|].
    apply singleRead_starved; try assumption.
    rewrite Hla1, Hw1. reflexivity.
Qed.

End ShifterStarved.

(** The default shifter over the ramp, set to half speed and read four
    bytes at a time: the second read panics. *)
Lemma slow_small_reads_panic_witness :
  exists self0 buffer1' self1,
    Shifter.NewDefaultSpeedShifter (F := float64) (LoopSpec.mem Example.ramp 1000 0)
      = Done self0 /\
    Shifter.Read 2 (Shifter.SetSpeed self0 (f_lit 1 2)) [0; 0; 0; 0]
      = Done (4, None, buffer1', self1) /\
    Shifter.Read 1 self1 [9; 9; 9; 9] = Panic "unexpected situation".
Proof.
  eapply (slow_small_reads_panic (LoopSpec.mem Example.ramp 1000 0) (f_of_int 1) 6
            Interp.InterpHermite6Pt3Ord [0; 0; 0; 0] [9; 9; 9; 9]).
  - lia.
  - reflexivity.
  - apply Hermite6_total.
  - vm_compute. reflexivity.
  - vm_compute. reflexivity.
  - reflexivity.
  - reflexivity.
  - reflexivity.
Defined.

